(** * Task store manager ([task_manager.py]): model and verified properties

    The development embeds [TaskManager] of [task_manager.py] in Rocq.

    - A task (a Python dict with the five keys the manager writes) is the
      record [Task]; the collection is a [list Task] in file order.
    - The manager keeps nothing in memory between calls: every method opens
      the file at [self.path].  The world a method runs in is therefore the
      state of that path ([file_state]), whether opening it for writing
      succeeds, and the wall clock read by [_get_timestamp].
    - Methods are computations in a state-and-exception monad [M]; a raised
      [ValueError] does not roll the world back, so "the file is unchanged
      when an error is raised" is a theorem, not a property of the monad.
    - [json.dump] and [json.load] belong to the Python standard library.  They
      are parameters of the model ([Section Manager]); the only fact assumed
      about them, and only where a theorem needs it, is that loading what was
      dumped gives the collection back.  [json_dumps] and [json_loads] below
      are one pair of functions that meets that contract
      ([json_loads_dumps]). *)

From stdpp Require Import base tactics option list gmap strings sorting.
From Stdlib Require Import ZArith Ascii String Lia DecimalString DecimalZ DecimalPos.

Local Open Scope string_scope.
Local Open Scope Z_scope.
Local Open Scope list_scope.

(** ** Data model *)

(** One task, as [add_task] builds it. *)
Record Task : Type := mkTask {
  id : Z;
  description : string;
  status : string;
  createdAt : string;
  updatedAt : string;
}.

Global Instance Task_eq_dec : EqDecision Task.
Proof. solve_decision. Defined.

(** [task["description"] = v], [task["status"] = v] and
    [task["updatedAt"] = v] on a task dict. *)
Definition set_description (v : string) (t : Task) : Task :=
  {| id := id t; description := v; status := status t;
     createdAt := createdAt t; updatedAt := updatedAt t |}.

Definition set_status (v : string) (t : Task) : Task :=
  {| id := id t; description := description t; status := v;
     createdAt := createdAt t; updatedAt := updatedAt t |}.

Definition set_updatedAt (v : string) (t : Task) : Task :=
  {| id := id t; description := description t; status := status t;
     createdAt := createdAt t; updatedAt := v |}.

Definition STATUS_TODO : string := "todo".
Definition STATUS_IN_PROGRESS : string := "in-progress".
Definition STATUS_DONE : string := "done".

Definition VALID_STATUSES : gset string :=
  {[ STATUS_TODO; STATUS_IN_PROGRESS; STATUS_DONE ]}.

(** ** Errors

    Every failure of the manager is a Python [ValueError]; the raise sites
    differ by message.  One constructor per raise site. *)
Inductive ValueError : Type :=
  | DescriptionEmpty                  (* "Task Description cannot be empty." *)
  | UpdatedDescriptionEmpty           (* "Updated Task Description cannot be empty." *)
  | TaskNotFound (task_id : Z)        (* "Task with id {task_id} not found." *)
  | InvalidStatusFilter (s : string)  (* "Invalid status filter: {status}" *)
  | ReadFailed                        (* "Failed to read tasks from {path}: {e}" *)
  | SaveFailed                        (* "Failed to save tasks to {path}" *)
  | NotInList.                        (* list.remove(x): x not in list *)

Global Instance ValueError_eq_dec : EqDecision ValueError.
Proof. solve_decision. Defined.

(** The three error kinds the specification distinguishes. *)
Inductive ErrorKind : Type := ValidationError | NotFoundError | StorageError.

Definition kind (e : ValueError) : option ErrorKind :=
  match e with
  | DescriptionEmpty | UpdatedDescriptionEmpty | InvalidStatusFilter _ =>
      Some ValidationError
  | TaskNotFound _ => Some NotFoundError
  | ReadFailed | SaveFailed => Some StorageError
  | NotInList => None
  end.

(** ** The world: the file at [self.path] and the clock *)

Inductive file_state : Type :=
  | Missing                   (* open(path, "r") raises FileNotFoundError *)
  | Contents (text : string)  (* a readable file holding [text] *)
  | Unreadable.               (* open(path, "r") raises another OSError *)

Record World : Type := mkWorld {
  file : file_state;
  writable : bool;   (* does open(path, "w") succeed? *)
  clock : string;    (* datetime.now().isoformat(timespec="seconds") *)
}.

Definition set_file (f : file_state) (w : World) : World :=
  {| file := f; writable := writable w; clock := clock w |}.

Definition set_clock (now : string) (w : World) : World :=
  {| file := file w; writable := writable w; clock := now |}.

(** ** State and exception monad *)

Inductive result (A : Type) : Type :=
  | Return (a : A)
  | Raise (e : ValueError).
Arguments Return {A} a.
Arguments Raise {A} e.

Definition M (A : Type) : Type := World → result A * World.

Global Instance M_ret : MRet M := λ A a w, (Return a, w).
Global Instance M_bind : MBind M := λ A B k m w,
  match m w with
  | (Return a, w') => k a w'
  | (Raise e, w') => (Raise e, w')
  end.
Definition raise {A} (e : ValueError) : M A := λ w, (Raise e, w).

(** ** Python built-ins used by the manager *)

(** [str.isspace] on one character, for code points below 256 (the
    characters a Rocq [string] holds): TAB..CR, FS..US, SPACE, NEL, NBSP. *)
Definition isspace (c : ascii) : bool :=
  let n := N_of_ascii c in
  ((9 <=? n) && (n <=? 13) || (28 <=? n) && (n <=? 32) || (n =? 133) || (n =? 160))%N.

Fixpoint lstrip (s : string) : string :=
  match s with
  | String c s' => if isspace c then lstrip s' else s
  | EmptyString => EmptyString
  end.

Fixpoint rstrip (s : string) : string :=
  match s with
  | EmptyString => EmptyString
  | String c s' =>
      match rstrip s' with
      | EmptyString => if isspace c then EmptyString else String c EmptyString
      | r => String c r
      end
  end.

(** [s.strip()] *)
Definition strip (s : string) : string := rstrip (lstrip s).

(** Truth value of a string: [not s] holds exactly for the empty string. *)
Definition truthy (s : string) : bool := negb (bool_decide (s = "")).

(** [max(it)] for an iterable whose first element is [x] and rest [xs]. *)
Definition py_max (x : Z) (xs : list Z) : Z := foldl Z.max x xs.

(** [lst.remove(x)]: drops the first element equal to [x]; raises when there
    is none ([None] here). *)
Fixpoint list_remove (x : Task) (l : list Task) : option (list Task) :=
  match l with
  | [] => None
  | y :: l' => if decide (y = x) then Some l' else (y ::.) <$> list_remove x l'
  end.

(** [[t for t in tasks if t.get("status") == status]]: the comprehension
    walks [tasks] from the front and appends each match to the result. *)
Definition with_status (s : string) (tasks : list Task) : list Task :=
  foldl (λ acc t, if decide (status t = s) then acc ++ [t] else acc) [] tasks.

(** ** A JSON codec for task collections

    [json_dumps] writes a collection the way [json.dump(tasks, tf, indent=2)]
    does (keys in insertion order, two-space indentation, non-printable and
    non-ASCII characters escaped); [json_loads] reads an array of such
    objects back, whatever the white space between the tokens, and answers
    [None] on any other text.  The pair is the instance at which the
    theorems of [Section Manager] are run on concrete stores. *)

Definition dquote : ascii := "034"%char.
Definition backslash : ascii := "092"%char.
Definition newline : ascii := "010"%char.

Definition hex_digit (n : N) : ascii :=
  ascii_of_N (if (n <? 10)%N then 48 + n else 87 + n).

(** The escape [json.dump] writes for one character (ensure_ascii is on). *)
Definition escape_char (c : ascii) : string :=
  let n := N_of_ascii c in
  if (n =? 34)%N then String backslash (String dquote "")
  else if (n =? 92)%N then String backslash (String backslash "")
  else if (n =? 10)%N then String backslash "n"
  else if (n =? 13)%N then String backslash "r"
  else if (n =? 9)%N then String backslash "t"
  else if (n =? 8)%N then String backslash "b"
  else if (n =? 12)%N then String backslash "f"
  else if (32 <=? n)%N && (n <=? 126)%N then String c ""
  else String backslash (String "u" (String "0" (String "0"
         (String (hex_digit (n / 16)) (String (hex_digit (n mod 16)) ""))))).

Fixpoint put_escaped (s k : string) : string :=
  match s with
  | EmptyString => k
  | String c s' => escape_char c +:+ put_escaped s' k
  end.

Definition put_string (s k : string) : string :=
  String dquote (put_escaped s (String dquote k)).

Definition put_int (z : Z) (k : string) : string :=
  NilZero.string_of_int (Z.to_int z) +:+ k.

Definition put_key (indent key k : string) : string :=
  String newline (indent +:+ put_string key (": " +:+ k)).

Definition put_task (t : Task) (k : string) : string :=
  "{" +:+
  put_key "    " "id" (put_int (id t) ("," +:+
  put_key "    " "description" (put_string (description t) ("," +:+
  put_key "    " "status" (put_string (status t) ("," +:+
  put_key "    " "createdAt" (put_string (createdAt t) ("," +:+
  put_key "    " "updatedAt" (put_string (updatedAt t)
  (String newline ("  }" +:+ k))))))))))).

Fixpoint put_items (t : Task) (ts : list Task) (k : string) : string :=
  String newline ("  " +:+ put_task t
    match ts with
    | [] => String newline ("]" +:+ k)
    | t' :: ts' => "," +:+ put_items t' ts' k
    end).

(** [json.dumps(tasks, indent=2)] *)
Definition json_dumps (tasks : list Task) : string :=
  match tasks with
  | [] => "[]"
  | t :: ts => "[" +:+ put_items t ts ""
  end.


(** *** Reading *)

Definition is_ws (c : ascii) : bool :=
  let n := N_of_ascii c in
  ((n =? 32) || (n =? 10) || (n =? 13) || (n =? 9))%N.

Fixpoint skip_ws (s : string) : string :=
  match s with
  | String c s' => if is_ws c then skip_ws s' else s
  | EmptyString => EmptyString
  end.

(** The next token must be the character [c]. *)
Definition expect (c : ascii) (s : string) : option string :=
  match skip_ws s with
  | String c' r => if Ascii.eqb c c' then Some r else None
  | EmptyString => None
  end.

Definition is_number_char (c : ascii) : bool :=
  let n := N_of_ascii c in
  ((n =? 45) || (48 <=? n) && (n <=? 57))%N.

Fixpoint all_number_chars (s : string) : bool :=
  match s with
  | EmptyString => true
  | String c s' => is_number_char c && all_number_chars s'
  end.

Fixpoint span_number (s : string) : string * string :=
  match s with
  | String c s' =>
      if is_number_char c
      then let (n, r) := span_number s' in (String c n, r)
      else (EmptyString, s)
  | EmptyString => (EmptyString, EmptyString)
  end.

Definition parse_int (s : string) : option (Z * string) :=
  let (n, r) := span_number (skip_ws s) in
  d ← NilZero.int_of_string n; Some (Z.of_int d, r).

Definition hex_value (c : ascii) : option N :=
  let n := N_of_ascii c in
  if (48 <=? n)%N && (n <=? 57)%N then Some (n - 48)%N
  else if (97 <=? n)%N && (n <=? 102)%N then Some (n - 87)%N
  else if (65 <=? n)%N && (n <=? 70)%N then Some (n - 55)%N
  else None.

(** The character a four-digit escape stands for, when it is below 256. *)
Definition unescape_hex (h1 h2 h3 h4 : ascii) : option ascii :=
  a ← hex_value h1; b ← hex_value h2; c ← hex_value h3; d ← hex_value h4;
  if ((a =? 0) && (b =? 0))%N then Some (ascii_of_N (16 * c + d)) else None.

Definition unescape (e : ascii) : option ascii :=
  let n := N_of_ascii e in
  if (n =? 34)%N then Some dquote
  else if (n =? 92)%N then Some backslash
  else if (n =? 47)%N then Some "/"%char
  else if (n =? 110)%N then Some "010"%char
  else if (n =? 114)%N then Some "013"%char
  else if (n =? 116)%N then Some "009"%char
  else if (n =? 98)%N then Some "008"%char
  else if (n =? 102)%N then Some "012"%char
  else None.

(** The characters of a string literal, after its opening quote. *)
Fixpoint parse_chars (s : string) : option (string * string) :=
  match s with
  | EmptyString => None
  | String c rest =>
      if Ascii.eqb c dquote then Some (EmptyString, rest)
      else if Ascii.eqb c backslash then
        match rest with
        | String e rest' =>
            if Ascii.eqb e "u" then
              match rest' with
              | String h1 (String h2 (String h3 (String h4 rest''))) =>
                  c' ← unescape_hex h1 h2 h3 h4;
                  '(r, k) ← parse_chars rest'';
                  Some (String c' r, k)
              | _ => None
              end
            else
              c' ← unescape e;
              '(r, k) ← parse_chars rest';
              Some (String c' r, k)
        | EmptyString => None
        end
      else if (N_of_ascii c <? 32)%N then None
      else '(r, k) ← parse_chars rest; Some (String c r, k)
  end.

Definition parse_string (s : string) : option (string * string) :=
  s ← expect dquote s; parse_chars s.

(** The member name [key] followed by a colon. *)
Definition parse_key (key : string) (s : string) : option string :=
  '(k, s) ← parse_string s;
  if bool_decide (k = key) then expect ":" s else None.

Definition parse_task (s : string) : option (Task * string) :=
  s ← expect "{" s;
  s ← parse_key "id" s; '(i, s) ← parse_int s; s ← expect "," s;
  s ← parse_key "description" s; '(d, s) ← parse_string s; s ← expect "," s;
  s ← parse_key "status" s; '(st, s) ← parse_string s; s ← expect "," s;
  s ← parse_key "createdAt" s; '(c, s) ← parse_string s; s ← expect "," s;
  s ← parse_key "updatedAt" s; '(u, s) ← parse_string s;
  s ← expect "}" s;
  Some ({| id := i; description := d; status := st;
           createdAt := c; updatedAt := u |}, s).

(** The tasks of a non-empty array, up to its closing bracket and the end of
    the text; [fuel] bounds the number of tasks. *)
Fixpoint parse_items (fuel : nat) (s : string) : option (list Task) :=
  match fuel with
  | O => None
  | S fuel =>
      '(t, s) ← parse_task s;
      match skip_ws s with
      | String c r =>
          if Ascii.eqb c "," then (t ::.) <$> parse_items fuel r
          else if Ascii.eqb c "]" then
            match skip_ws r with EmptyString => Some [t] | _ => None end
          else None
      | EmptyString => None
      end
  end.

(** [json.loads(text)] for a text holding an array of tasks. *)
Definition json_loads (text : string) : option (list Task) :=
  s ← expect "[" text;
  match skip_ws s with
  | String c r =>
      if Ascii.eqb c "]" then
        match skip_ws r with EmptyString => Some [] | _ => None end
      else parse_items (String.length s) s
  | EmptyString => None
  end.

(** ** Concrete stores *)

Definition fresh : World :=
  {| file := Missing; writable := true; clock := "2024-05-01T09:00:00" |}.

Definition milk : Task :=
  {| id := 1; description := "Buy milk"; status := "todo";
     createdAt := "2024-05-01T09:00:00"; updatedAt := "2024-05-01T09:00:00" |}.

Definition dog : Task :=
  {| id := 2; description := "Walk the dog"; status := "in-progress";
     createdAt := "2024-05-01T09:05:00"; updatedAt := "2024-05-01T10:30:00" |}.

(** A store holding two tasks, read on the next day. *)
Definition two_tasks : World :=
  {| file := Contents (json_dumps [milk; dog]); writable := true;
     clock := "2024-05-02T08:00:00" |}.

(** The task [add_task "Feed the cat"] builds on that store. *)
Definition cat : Task :=
  {| id := 3; description := "Feed the cat"; status := "todo";
     createdAt := "2024-05-02T08:00:00"; updatedAt := "2024-05-02T08:00:00" |}.

(** ** Schema comparison ([typespec/validate.py])

    An OpenAPI document as [compare_schemas] reads it: the "info" and
    "paths" objects, each possibly absent.  The members of "info" are texts;
    of a path item only its key is read, so its type is left open. *)
Record Schema (PathItem : Type) : Type := mkSchema {
  info : option (gmap string string);
  paths : option (gmap string PathItem);
}.
Arguments mkSchema {PathItem} info paths.
Arguments info {PathItem} s.
Arguments paths {PathItem} s.

(** One entry of [differences]; the two path entries carry the set that the
    message shows. *)
Inductive difference : Type :=
  | TitleMismatch                               (* "Title mismatch" *)
  | PathsMissingInFastapi (names : gset string) (* "Paths in TypeSpec but not in FastAPI: ..." *)
  | PathsExtraInFastapi (names : gset string).  (* "Paths in FastAPI but not in TypeSpec: ..." *)

Global Instance difference_eq_dec : EqDecision difference.
Proof. solve_decision. Defined.

(** [schema.get("info", {}).get("title")] *)
Definition schema_title {P} (schema : Schema P) : option string :=
  default ∅ (info schema) !! "title".

(** [set(schema.get("paths", {}).keys())] *)
Definition schema_paths {P} (schema : Schema P) : gset string :=
  dom (default ∅ (paths schema)).

(** The verdict returned, with the differences printed when it is [false]. *)
Definition compare_schemas {P} (typespec_schema fastapi_schema : Schema P)
    : bool * list difference :=
  let differences := [] in
  let differences :=
    if bool_decide (schema_title typespec_schema ≠ schema_title fastapi_schema)
    then differences ++ [TitleMismatch] else differences in
  let typespec_paths := schema_paths typespec_schema in
  let fastapi_paths := schema_paths fastapi_schema in
  let differences :=
    if bool_decide (typespec_paths ≠ fastapi_paths) then
      let missing_in_fastapi := typespec_paths ∖ fastapi_paths in
      let extra_in_fastapi := fastapi_paths ∖ typespec_paths in
      let differences :=
        if bool_decide (missing_in_fastapi ≠ ∅)
        then differences ++ [PathsMissingInFastapi missing_in_fastapi]
        else differences in
      if bool_decide (extra_in_fastapi ≠ ∅)
      then differences ++ [PathsExtraInFastapi extra_in_fastapi]
      else differences
    else differences in
  if bool_decide (differences ≠ []) then (false, differences)
  else (true, []).

(** An [int] for plain decimal numerals (an optional minus sign, then
    digits), the instance at which the handlers are run below. *)
Definition read_decimal (text : string) : option Z :=
  Z.of_int <$> NilZero.int_of_string text.

(** A store whose file is not JSON, one that cannot be written and one that
    cannot be read. *)
Definition garbled : World :=
  {| file := Contents "not json at all"; writable := true;
     clock := "2024-05-02T08:00:00" |}.

Definition read_only : World :=
  {| file := Contents (json_dumps [milk; dog]); writable := false;
     clock := "2024-05-02T08:00:00" |}.

Definition locked : World :=
  {| file := Unreadable; writable := true; clock := "2024-05-02T08:00:00" |}.

(** ** TaskManager *)

(** The task ids, in file order. *)
Definition ids (tasks : list Task) : list Z := id <$> tasks.

Definition _next_id (tasks : list Task) : Z :=
  match tasks with
  | [] => 1
  | t :: ts => py_max (id t) (ids ts) + 1
  end.

(** [_find_task] returns a reference to the first dict whose id matches.
    The reference is modelled by the position in [tasks] together with the
    dict found there; an assignment through the reference is written back to
    that position. *)
Fixpoint _find_task (tasks : list Task) (task_id : Z) : option (nat * Task) :=
  match tasks with
  | [] => None
  | t :: ts =>
      if decide (id t = task_id) then Some (0%nat, t)
      else prod_map S (λ x, x) <$> _find_task ts task_id
  end.

Definition _get_timestamp : M string := λ w, (Return (clock w), w).

Section Manager.

(** [json.dump(tasks, tf, indent=2)] as the text written, and
    [json.load(tf)] on a text ([None]: [JSONDecodeError]). *)
Variable json_dump : list Task → string.
Variable json_load : string → option (list Task).

(** The contract of the [json] module used below: a collection that was
    dumped loads back unchanged. *)
Hypothesis json_roundtrip : ∀ tasks, json_load (json_dump tasks) = Some tasks.

Definition _get_tasks : M (list Task) := λ w,
  match file w with
  | Missing => (Return [], w)
  | Contents text =>
      match json_load text with
      | Some tasks => (Return tasks, w)
      | None => (Return [], w)
      end
  | Unreadable => (Raise ReadFailed, w)
  end.

(** Opening for writing either fails and leaves the path as it is, or
    replaces the whole text.  A file that cannot be read stays so. *)
Definition _save_tasks (tasks : list Task) : M unit := λ w,
  if writable w then
    (Return (),
     set_file (match file w with
               | Unreadable => Unreadable
               | _ => Contents (json_dump tasks)
               end) w)
  else (Raise SaveFailed, w).

Definition _update_task_status (task_id : Z) (new_status : string) : M Task :=
  tasks ← _get_tasks;
  match _find_task tasks task_id with
  | None => raise (TaskNotFound task_id)
  | Some (i, task) =>
      let task := set_status new_status task in
      now ← _get_timestamp;
      let task := set_updatedAt now task in
      _save_tasks (<[i := task]> tasks);;
      mret task
  end.

Definition add_task (description : string) : M Task :=
  if negb (truthy description) || negb (truthy (strip description)) then
    raise DescriptionEmpty
  else
    tasks ← _get_tasks;
    let new_id := _next_id tasks in
    timestamp ← _get_timestamp;
    let task := {| id := new_id; description := description;
                   status := STATUS_TODO;
                   createdAt := timestamp; updatedAt := timestamp |} in
    let tasks := tasks ++ [task] in
    _save_tasks tasks;;
    mret task.

Definition list_tasks (status : option string) : M (list Task) :=
  tasks ← _get_tasks;
  match status with
  | None => mret tasks
  | Some s =>
      if negb (bool_decide (s ∈ VALID_STATUSES)) then
        raise (InvalidStatusFilter s)
      else mret (with_status s tasks)
  end.

Definition update_task (id : Z) (updated_description : string) : M Task :=
  if negb (truthy updated_description)
     || negb (truthy (strip updated_description)) then
    raise UpdatedDescriptionEmpty
  else
    tasks ← _get_tasks;
    match _find_task tasks id with
    | None => raise (TaskNotFound id)
    | Some (i, task) =>
        let task := set_description updated_description task in
        now ← _get_timestamp;
        let task := set_updatedAt now task in
        _save_tasks (<[i := task]> tasks);;
        mret task
    end.

Definition delete_task (id : Z) : M Task :=
  tasks ← _get_tasks;
  match _find_task tasks id with
  | None => raise (TaskNotFound id)
  | Some (_, task) =>
      match list_remove task tasks with
      | None => raise NotInList
      | Some tasks => _save_tasks tasks;; mret task
      end
  end.

Definition mark_in_progress (id : Z) : M Task :=
  _update_task_status id STATUS_IN_PROGRESS.

Definition mark_done (id : Z) : M Task :=
  _update_task_status id STATUS_DONE.

(** ** Calls made by successive processes

    Each command-line invocation is a fresh process: it reads the clock, makes
    one call on the manager and exits, whether the call returned or raised.
    The next process starts from the file the previous one left. *)
Inductive mutation : Type :=
  | Add (description : string)
  | Update (id : Z) (updated_description : string)
  | Delete (id : Z)
  | MarkInProgress (id : Z)
  | MarkDone (id : Z).

Definition perform (m : mutation) : M Task :=
  match m with
  | Add d => add_task d
  | Update i d => update_task i d
  | Delete i => delete_task i
  | MarkInProgress i => mark_in_progress i
  | MarkDone i => mark_done i
  end.

(** One process: the call [m] made when the clock shows [now]. *)
Definition step (w : World) (c : string * mutation) : World :=
  (perform c.2 (set_clock c.1 w)).2.

Definition run (calls : list (string * mutation)) (w : World) : World :=
  foldl step w calls.

(** The collection a fresh process would load. *)
Definition loaded (w : World) : result (list Task) := (_get_tasks w).1.

(** The world after [tasks] has been written to a readable path. *)
Definition written (tasks : list Task) (w : World) : World :=
  set_file (Contents (json_dump tasks)) w.

(** The task [add_task] builds. *)
Definition new_task (tasks : list Task) (d now : string) : Task :=
  {| id := _next_id tasks; description := d; status := STATUS_TODO;
     createdAt := now; updatedAt := now |}.

(** The in-memory change a successful call makes: [effect now m tasks tasks' t]
    relates the collection loaded, the collection saved and the task
    returned when [m] is called at time [now]. *)
Inductive effect (now : string) : mutation → list Task → list Task → Task → Prop :=
  | effect_add d tasks :
      strip d ≠ "" →
      effect now (Add d) tasks (tasks ++ [new_task tasks d now]) (new_task tasks d now)
  | effect_update i d tasks n t :
      strip d ≠ "" → _find_task tasks i = Some (n, t) →
      effect now (Update i d) tasks
        (<[n := set_updatedAt now (set_description d t)]> tasks)
        (set_updatedAt now (set_description d t))
  | effect_delete i tasks n t :
      _find_task tasks i = Some (n, t) →
      effect now (Delete i) tasks (delete n tasks) t
  | effect_mark_in_progress i tasks n t :
      _find_task tasks i = Some (n, t) →
      effect now (MarkInProgress i) tasks
        (<[n := set_updatedAt now (set_status STATUS_IN_PROGRESS t)]> tasks)
        (set_updatedAt now (set_status STATUS_IN_PROGRESS t))
  | effect_mark_done i tasks n t :
      _find_task tasks i = Some (n, t) →
      effect now (MarkDone i) tasks
        (<[n := set_updatedAt now (set_status STATUS_DONE t)]> tasks)
        (set_updatedAt now (set_status STATUS_DONE t)).

(** A call raises an error of kind [k] and leaves the world as it was. *)
Definition raises {A} (m : M A) (w : World) (k : ErrorKind) : Prop :=
  ∃ e, m w = (Raise e, w) ∧ kind e = Some k.

(** The three status values, spelled out. *)
Definition enumerated (s : string) : Prop :=
  s = "todo" ∨ s = "in-progress" ∨ s = "done".

(** A task as the data model wants it: an enumerated status, a positive id. *)
Definition well_formed (t : Task) : Prop := enumerated (status t) ∧ 0 < id t.

(** The calls that change one task in place. *)
Definition in_place (m : mutation) (i : Z) : Prop :=
  (∃ d, m = Update i d ∧ strip d ≠ "") ∨ m = MarkInProgress i ∨ m = MarkDone i.

(** Every character of the string is white space ([str.isspace], and the
    empty string). *)
Fixpoint all_space (s : string) : bool :=
  match s with
  | EmptyString => true
  | String c s' => isspace c && all_space s'
  end.

(** Two records of the same task: same id, same creation stamp. *)
Definition same_task (a b : Task) : Prop := id a = id b ∧ createdAt a = createdAt b.

(** The call is not a deletion. *)
Definition not_delete (m : mutation) : Prop :=
  match m with Delete _ => False | _ => True end.

(** ** The command handlers ([task_cli.py])

    The handlers work on the process-wide manager [tm = TaskManager()], whose
    file is "tasks.json".  A handler receives the attributes of the parsed
    [args] it reads; what it prints is modelled as its result, one string
    per [print] call, in order.  A [ValueError] that a handler does not
    catch leaves it as [Raise]. *)

Section Handlers.

(** [int(text)]: the integer a text denotes, [None] when [int] raises
    [ValueError]. *)
Variable py_int : string → option Z.

(** The text of the [OSError] that [_get_tasks] wraps. *)
Variable oserror : string.

(** [str(n)], which is also what an f-string writes for an int. *)
Definition str_int (n : Z) : string := NilZero.string_of_int (Z.to_int n).

(** [s * n] *)
Fixpoint str_mul (s : string) (n : nat) : string :=
  match n with
  | O => EmptyString
  | S n' => s +:+ str_mul s n'
  end.

(** [str(e)] for each [ValueError] the manager raises. *)
Definition message (e : ValueError) : string :=
  match e with
  | DescriptionEmpty => "Task Description cannot be empty."
  | UpdatedDescriptionEmpty => "Updated Task Description cannot be empty."
  | TaskNotFound task_id => "Task with id " +:+ str_int task_id +:+ " not found."
  | InvalidStatusFilter s => "Invalid status filter: " +:+ s
  | ReadFailed => "Failed to read tasks from tasks.json: " +:+ oserror
  | SaveFailed => "Failed to save tasks to tasks.json"
  | NotInList => "list.remove(x): x not in list"
  end.

(** [try: x = m ... except ValueError as e: ...]: the outcome of [m], with
    the exception caught. *)
Definition attempt {A} (m : M A) : M (ValueError + A) := λ w,
  match m w with
  | (Return a, w') => (Return (inr a), w')
  | (Raise e, w') => (Return (inl e), w')
  end.

(** The text [{t['id']} - {t['description']} - {t['status']}]. *)
Definition task_line (t : Task) : string :=
  str_int (id t) +:+ " - " +:+ description t +:+ " - " +:+ status t.

Definition command_add (args_description : string) : M (list string) :=
  t ← add_task args_description;
  mret ["Task added: " +:+ task_line t].

Definition command_list (args_status : option string) : M (list string) :=
  let status := args_status in
  r ← attempt (list_tasks status);
  match r with
  | inl e => mret ["Error: " +:+ message e]
  | inr tasks =>
      if bool_decide (tasks = []) then
        match status with
        | Some s =>
            if truthy s then mret ["No tasks found with status: " +:+ s +:+ "."]
            else mret ["No tasks found."]
        | None => mret ["No tasks found."]
        end
      else
        mret ([String newline
                 ("Listing " +:+ str_int (Z.of_nat (List.length tasks)) +:+ " tasks:");
               str_mul "-" 40]
              ++ (task_line <$> tasks)
              ++ [String newline EmptyString])
  end.

Definition command_update (args_id args_description : string) : M (list string) :=
  match py_int args_id with
  | None => mret ["Error: Invalid task ID: " +:+ args_id]
  | Some task_id =>
      r ← attempt (update_task task_id args_description);
      match r with
      | inr t => mret ["Task updated: " +:+ task_line t]
      | inl e => mret ["Error: " +:+ message e]
      end
  end.

Definition command_delete (args_id : string) : M (list string) :=
  match py_int args_id with
  | None => mret ["Error: Invalid task ID: " +:+ args_id]
  | Some task_id =>
      r ← attempt (delete_task task_id);
      match r with
      | inr _ => mret ["Task deleted: " +:+ str_int task_id]
      | inl e => mret ["Error: " +:+ message e]
      end
  end.

Definition command_mark_in_progress (args_id : string) : M (list string) :=
  match py_int args_id with
  | None => mret ["Error: Invalid task ID: " +:+ args_id]
  | Some task_id =>
      r ← attempt (mark_in_progress task_id);
      match r with
      | inr _ => mret ["Task marked as in progress: " +:+ str_int task_id]
      | inl e => mret ["Error: " +:+ message e]
      end
  end.

Definition command_mark_done (args_id : string) : M (list string) :=
  match py_int args_id with
  | None => mret ["Error: Invalid task ID: " +:+ args_id]
  | Some task_id =>
      r ← attempt (mark_done task_id);
      match r with
      | inr _ => mret ["Task marked as done: " +:+ str_int task_id]
      | inl e => mret ["Error: " +:+ message e]
      end
  end.

(** The four handlers that take an id. *)
Inductive id_command : Type :=
  | CmdUpdate (args_description : string)
  | CmdDelete
  | CmdMarkInProgress
  | CmdMarkDone.

Definition run_id_command (c : id_command) (args_id : string) : M (list string) :=
  match c with
  | CmdUpdate d => command_update args_id d
  | CmdDelete => command_delete args_id
  | CmdMarkInProgress => command_mark_in_progress args_id
  | CmdMarkDone => command_mark_done args_id
  end.

End Handlers.

(** The manager call a handler makes once the id has been read. *)
Definition call_of (c : id_command) (task_id : Z) : mutation :=
  match c with
  | CmdUpdate d => Update task_id d
  | CmdDelete => Delete task_id
  | CmdMarkInProgress => MarkInProgress task_id
  | CmdMarkDone => MarkDone task_id
  end.

(** The arguments of the manager call pass its own checks. *)
Definition checked (c : id_command) : Prop :=
  match c with CmdUpdate d => strip d ≠ "" | _ => True end.


(** * Properties of the building blocks *)

Lemma truthy_strip d : strip d ≠ "" → truthy d = true ∧ truthy (strip d) = true.
Proof.
  intros Hd. unfold truthy. split.
  - destruct d; [done|]. by rewrite bool_decide_eq_false_2.
  - by rewrite bool_decide_eq_false_2.
Qed.

Lemma blank_not_truthy d :
  strip d = "" → negb (truthy d) || negb (truthy (strip d)) = true.
Proof.
  intros Hd. unfold truthy. rewrite Hd. simpl. apply orb_true_r.
Qed.

Lemma valid_description_guard d :
  strip d ≠ "" → negb (truthy d) || negb (truthy (strip d)) = false.
Proof. intros [-> ->]%truthy_strip. done. Qed.

(** [py_max] is an element of the iterable and bounds every element. *)
Lemma py_max_ge_init x xs : x ≤ py_max x xs.
Proof.
  unfold py_max. revert x. induction xs as [|y xs IH]; intros x; simpl; [lia|].
  specialize (IH (Z.max x y)). lia.
Qed.

Lemma py_max_upper x xs y : y ∈ x :: xs → y ≤ py_max x xs.
Proof.
  unfold py_max. revert x. induction xs as [|z xs IH]; intros x; simpl.
  - rewrite list_elem_of_singleton. lia.
  - pose proof (py_max_ge_init (Z.max x z) xs) as Hge. unfold py_max in Hge.
    rewrite !elem_of_cons. intros [->|[->|Hy]]; [lia..|].
    apply IH. rewrite elem_of_cons. by right.
Qed.

Lemma py_max_elem x xs : py_max x xs ∈ x :: xs.
Proof.
  unfold py_max. revert x. induction xs as [|z xs IH]; intros x; simpl.
  - by apply list_elem_of_singleton.
  - specialize (IH (Z.max x z)). revert IH. rewrite !elem_of_cons.
    intros [->|IH]; [|by auto].
    destruct (Z.max_spec x z) as [[_ ->]|[_ ->]]; auto.
Qed.

(** [_find_task] finds the first position holding the id, if any. *)
Lemma _find_task_Some tasks tid i t :
  _find_task tasks tid = Some (i, t) ↔
  tasks !! i = Some t ∧ id t = tid ∧
  ∀ j t', tasks !! j = Some t' → (j < i)%nat → id t' ≠ tid.
Proof.
  revert i. induction tasks as [|x tasks IH]; intros i; simpl.
  - split; [done|]. by intros [? _].
  - destruct (decide (id x = tid)) as [Hx|Hx].
    + split.
      * intros [= <- <-]. split_and!; [done..|]. intros; lia.
      * intros (Hi & Ht & Hfirst). destruct i as [|i].
        { simpl in Hi. by simplify_eq. }
        exfalso. apply (Hfirst 0%nat x); [done|lia|done].
    + split.
      * destruct (_find_task tasks tid) as [[j u]|] eqn:E; [|done].
        simpl. intros [= <- <-].
        destruct (proj1 (IH j) eq_refl) as (Hj & Hu & Hfirst).
        split_and!; [done..|]. intros [|k] t' Hk Hlt; simpl in Hk.
        { by simplify_eq. }
        apply (Hfirst k); [done|lia].
      * intros (Hi & Ht & Hfirst). destruct i as [|i]; simpl in Hi.
        { by simplify_eq. }
        assert (_find_task tasks tid = Some (i, t)) as ->; [|done].
        apply IH. split_and!; [done..|]. intros j t' Hj Hlt.
        apply (Hfirst (S j)); [done|lia].
Qed.

Lemma _find_task_None tasks tid :
  _find_task tasks tid = None ↔ tid ∉ ids tasks.
Proof.
  unfold ids. induction tasks as [|x tasks IH]; simpl.
  - split; [|done]. intros _. apply not_elem_of_nil.
  - rewrite not_elem_of_cons. destruct (decide (id x = tid)) as [Hx|Hx].
    + split; [done|]. intros [? _]. congruence.
    + destruct (_find_task tasks tid) as [[j u]|]; simpl.
      * split; [done|]. intros [_ H]. by apply IH in H.
      * split; [|done]. intros _. split; [congruence|]. by apply IH.
Qed.

(** [tasks.remove(task)] on the dict [_find_task] returned removes exactly
    the position it was found at, and never raises. *)
Lemma list_remove_found tasks tid i t :
  _find_task tasks tid = Some (i, t) →
  list_remove t tasks = Some (delete i tasks).
Proof.
  revert i. induction tasks as [|x tasks IH]; intros i; simpl; [done|].
  destruct (decide (id x = tid)) as [Hx|Hx].
  - intros [= <- <-]. by rewrite decide_True.
  - destruct (_find_task tasks tid) as [[j u]|] eqn:E; [|done].
    simpl. intros [= <- <-]. rewrite decide_False.
    + by rewrite (IH j eq_refl).
    + intros ->. apply _find_task_Some in E as (_ & ? & _). congruence.
Qed.

(** The comprehension is the order-preserving filter. *)
Lemma with_status_filter s tasks :
  with_status s tasks = filter (λ t, status t = s) tasks.
Proof.
  unfold with_status.
  enough (∀ acc,
    foldl (λ acc t, if decide (status t = s) then acc ++ [t] else acc) acc tasks
    = acc ++ filter (λ t, status t = s) tasks) as H by apply (H []).
  induction tasks as [|x tasks IH]; intros acc; simpl.
  - by rewrite app_nil_r.
  - rewrite IH. rewrite filter_cons. destruct (decide (status x = s)); [|done].
    by rewrite <- app_assoc.
Qed.

(** * What each method does to the world *)

(** Reading never changes the world. *)
Lemma _get_tasks_run w : _get_tasks w = (loaded w, w).
Proof.
  unfold loaded, _get_tasks.
  destruct (file w) as [|text|]; [done| |done]. by destruct (json_load text).
Qed.

Lemma loaded_readable w tasks : loaded w = Return tasks → file w ≠ Unreadable.
Proof.
  unfold loaded, _get_tasks. by destruct (file w).
Qed.

Lemma loaded_unreadable w e : loaded w = Raise e → e = ReadFailed.
Proof.
  unfold loaded, _get_tasks.
  destruct (file w) as [|text|]; [done| |by intros [= <-]].
  by destruct (json_load text).
Qed.

Lemma _save_tasks_run tasks w :
  file w ≠ Unreadable →
  _save_tasks tasks w =
    if writable w then (Return (), written tasks w) else (Raise SaveFailed, w).
Proof.
  intros Hf. unfold _save_tasks, written.
  destruct (writable w); [|done]. by destruct (file w).
Qed.

(** Sequencing after a successful load. *)
Lemma bind_loaded {A} (k : list Task → M A) w tasks :
  loaded w = Return tasks → (_get_tasks ≫= k) w = k tasks w.
Proof.
  intros H. unfold mbind, M_bind. by rewrite _get_tasks_run, H.
Qed.

Lemma bind_load_failed {A} (k : list Task → M A) w e :
  loaded w = Raise e → (_get_tasks ≫= k) w = (Raise e, w).
Proof.
  intros H. unfold mbind, M_bind. by rewrite _get_tasks_run, H.
Qed.

(** Stamping and saving the collection [tasks], then returning [f now]. *)
Lemma stamp_save_run (f : string → Task) (g : string → list Task) w :
  file w ≠ Unreadable →
  (now ← _get_timestamp; _save_tasks (g now);; mret (f now)) w =
    if writable w then (Return (f (clock w)), written (g (clock w)) w)
    else (Raise SaveFailed, w).
Proof.
  intros Hf. unfold mbind, M_bind, _get_timestamp.
  rewrite _save_tasks_run by done. by destruct (writable w).
Qed.

Lemma add_task_run d w tasks :
  strip d ≠ "" → loaded w = Return tasks →
  add_task d w =
    if writable w
    then (Return (new_task tasks d (clock w)),
          written (tasks ++ [new_task tasks d (clock w)]) w)
    else (Raise SaveFailed, w).
Proof.
  intros Hd Hl. unfold add_task.
  rewrite valid_description_guard by done.
  rewrite (bind_loaded _ _ _ Hl).
  apply (stamp_save_run (new_task tasks d) (λ now, tasks ++ [new_task tasks d now])).
  by eapply loaded_readable.
Qed.

Lemma add_task_blank d w :
  strip d = "" → add_task d w = (Raise DescriptionEmpty, w).
Proof.
  intros Hd. unfold add_task. by rewrite blank_not_truthy.
Qed.

Lemma update_task_blank i d w :
  strip d = "" → update_task i d w = (Raise UpdatedDescriptionEmpty, w).
Proof.
  intros Hd. unfold update_task. by rewrite blank_not_truthy.
Qed.

Lemma update_task_run i d w tasks :
  strip d ≠ "" → loaded w = Return tasks →
  update_task i d w =
    match _find_task tasks i with
    | None => (Raise (TaskNotFound i), w)
    | Some (n, t) =>
        let t' := set_updatedAt (clock w) (set_description d t) in
        if writable w then (Return t', written (<[n := t']> tasks) w)
        else (Raise SaveFailed, w)
    end.
Proof.
  intros Hd Hl. unfold update_task.
  rewrite valid_description_guard by done.
  rewrite (bind_loaded _ _ _ Hl).
  destruct (_find_task tasks i) as [[n t]|]; [|done].
  apply (stamp_save_run (λ now, set_updatedAt now (set_description d t))
           (λ now, <[n := set_updatedAt now (set_description d t)]> tasks)).
  by eapply loaded_readable.
Qed.

Lemma _update_task_status_run i s w tasks :
  loaded w = Return tasks →
  _update_task_status i s w =
    match _find_task tasks i with
    | None => (Raise (TaskNotFound i), w)
    | Some (n, t) =>
        let t' := set_updatedAt (clock w) (set_status s t) in
        if writable w then (Return t', written (<[n := t']> tasks) w)
        else (Raise SaveFailed, w)
    end.
Proof.
  intros Hl. unfold _update_task_status.
  rewrite (bind_loaded _ _ _ Hl).
  destruct (_find_task tasks i) as [[n t]|]; [|done].
  apply (stamp_save_run (λ now, set_updatedAt now (set_status s t))
           (λ now, <[n := set_updatedAt now (set_status s t)]> tasks)).
  by eapply loaded_readable.
Qed.

Lemma delete_task_run i w tasks :
  loaded w = Return tasks →
  delete_task i w =
    match _find_task tasks i with
    | None => (Raise (TaskNotFound i), w)
    | Some (n, t) =>
        if writable w then (Return t, written (delete n tasks) w)
        else (Raise SaveFailed, w)
    end.
Proof.
  intros Hl. unfold delete_task.
  rewrite (bind_loaded _ _ _ Hl).
  destruct (_find_task tasks i) as [[n t]|] eqn:E; [|done].
  rewrite (list_remove_found _ _ _ _ E).
  unfold mbind, M_bind. rewrite _save_tasks_run by (by eapply loaded_readable).
  by destruct (writable w).
Qed.

Lemma list_tasks_run status w tasks :
  loaded w = Return tasks →
  list_tasks status w =
    match status with
    | None => (Return tasks, w)
    | Some s =>
        if bool_decide (s ∈ VALID_STATUSES)
        then (Return (with_status s tasks), w)
        else (Raise (InvalidStatusFilter s), w)
    end.
Proof.
  intros Hl. unfold list_tasks. rewrite (bind_loaded _ _ _ Hl).
  destruct status as [s|]; [|done]. by destruct (bool_decide _).
Qed.

(** A call made while the file cannot be read raises the read error,
    unless an argument check comes first. *)
Lemma perform_load_failed m w e :
  loaded w = Raise e →
  ∃ e', perform m w = (Raise e', w).
Proof.
  intros Hl. destruct m as [d|i d|i|i|i]; simpl.
  - unfold add_task. destruct (_ || _); [by eexists|].
    rewrite (bind_load_failed _ _ _ Hl). by eexists.
  - unfold update_task. destruct (_ || _); [by eexists|].
    rewrite (bind_load_failed _ _ _ Hl). by eexists.
  - unfold delete_task.
    rewrite (bind_load_failed _ _ _ Hl). by eexists.
  - unfold mark_in_progress, _update_task_status.
    rewrite (bind_load_failed _ _ _ Hl). by eexists.
  - unfold mark_done, _update_task_status.
    rewrite (bind_load_failed _ _ _ Hl). by eexists.
Qed.

(** ** Every call either raises and leaves the world alone, or saves *)

Lemma loaded_set_clock now w : loaded (set_clock now w) = loaded w.
Proof.
  unfold loaded, _get_tasks. simpl.
  destruct (file w) as [|text|]; [done| |done]. by destruct (json_load text).
Qed.

Lemma loaded_written tasks w : loaded (written tasks w) = Return tasks.
Proof.
  unfold loaded, _get_tasks, written. simpl. by rewrite json_roundtrip.
Qed.

Lemma perform_cases m w r w' :
  perform m w = (r, w') →
  (∃ e, r = Raise e ∧ w' = w) ∨
  (∃ t tasks tasks',
     r = Return t ∧ loaded w = Return tasks ∧ writable w = true ∧
     w' = written tasks' w ∧ effect (clock w) m tasks tasks' t).
Proof.
  destruct (loaded w) as [tasks|e] eqn:Hl.
  2:{ destruct (perform_load_failed m w e Hl) as [e' ->].
      intros [= <- <-]. left. by eexists. }
  destruct m as [d|i d|i|i|i]; simpl.
  - destruct (decide (strip d = "")) as [Hd|Hd].
    { rewrite add_task_blank by done. intros [= <- <-]. left. by eexists. }
    rewrite (add_task_run d w tasks) by done.
    destruct (writable w) eqn:Hw; intros [= <- <-]; [right|left; by eexists].
    eexists _, tasks, _. split_and!; [done..|]. by constructor.
  - destruct (decide (strip d = "")) as [Hd|Hd].
    { rewrite update_task_blank by done. intros [= <- <-]. left. by eexists. }
    rewrite (update_task_run i d w tasks) by done.
    destruct (_find_task tasks i) as [[n t]|] eqn:Hf.
    2:{ intros [= <- <-]. left. by eexists. }
    simpl. destruct (writable w) eqn:Hw; intros [= <- <-]; [right|left; by eexists].
    eexists _, tasks, _. split_and!; [done..|]. by constructor.
  - rewrite (delete_task_run i w tasks) by done.
    destruct (_find_task tasks i) as [[n t]|] eqn:Hf.
    2:{ intros [= <- <-]. left. by eexists. }
    destruct (writable w) eqn:Hw; intros [= <- <-]; [right|left; by eexists].
    eexists _, tasks, _. split_and!; [done..|]. by constructor.
  - unfold mark_in_progress. rewrite (_update_task_status_run i _ w tasks) by done.
    destruct (_find_task tasks i) as [[n t]|] eqn:Hf.
    2:{ intros [= <- <-]. left. by eexists. }
    simpl. destruct (writable w) eqn:Hw; intros [= <- <-]; [right|left; by eexists].
    eexists _, tasks, _. split_and!; [done..|]. by constructor.
  - unfold mark_done. rewrite (_update_task_status_run i _ w tasks) by done.
    destruct (_find_task tasks i) as [[n t]|] eqn:Hf.
    2:{ intros [= <- <-]. left. by eexists. }
    simpl. destruct (writable w) eqn:Hw; intros [= <- <-]; [right|left; by eexists].
    eexists _, tasks, _. split_and!; [done..|]. by constructor.
Qed.

Lemma enumerated_valid s : s ∈ VALID_STATUSES ↔ enumerated s.
Proof.
  unfold VALID_STATUSES, enumerated, STATUS_TODO, STATUS_IN_PROGRESS, STATUS_DONE.
  rewrite !elem_of_union, !elem_of_singleton. tauto.
Qed.

(** ** Invariants of the collection along a sequence of calls *)

Lemma _next_id_positive tasks : Forall (λ t, 0 < id t) tasks → 0 < _next_id tasks.
Proof.
  destruct tasks as [|t0 ts]; simpl; [lia|]. intros [H0 _]%Forall_cons.
  pose proof (py_max_ge_init (id t0) (ids ts)). lia.
Qed.

Lemma found_lookup tasks i n t :
  _find_task tasks i = Some (n, t) → tasks !! n = Some t ∧ id t = i.
Proof. intros H. apply _find_task_Some in H. tauto. Qed.

Lemma effect_well_formed now m tasks tasks' t :
  effect now m tasks tasks' t →
  Forall well_formed tasks → Forall well_formed tasks'.
Proof.
  intros He HF. destruct He as [d tasks _|i d tasks n t _ Hf|i tasks n t Hf
    |i tasks n t Hf|i tasks n t Hf];
    try (apply found_lookup in Hf as [Hn _];
         pose proof (Forall_lookup_1 _ _ _ _ HF Hn) as [Hs Hp]).
  - apply Forall_app. split; [done|]. apply Forall_singleton. split.
    + by left.
    + apply _next_id_positive. eapply Forall_impl; [done|]. by intros ? [_ ?].
  - by apply Forall_insert.
  - by apply Forall_delete.
  - apply Forall_insert; [done|]. split; [|done]. right. by left.
  - apply Forall_insert; [done|]. split; [|done]. right. by right.
Qed.

(** One process either leaves the collection as it was or replaces it by the
    collection its call built. *)
Lemma step_loaded w c :
  loaded (step w c) = loaded w ∨
  ∃ tasks tasks' t,
    loaded w = Return tasks ∧ loaded (step w c) = Return tasks' ∧
    effect c.1 c.2 tasks tasks' t.
Proof.
  unfold step. destruct (perform c.2 (set_clock c.1 w)) as [r w'] eqn:E.
  apply perform_cases in E
    as [(e & _ & ->)|(t & tasks & tasks' & _ & Hl & _ & -> & He)]; simpl.
  - left. apply loaded_set_clock.
  - right. exists tasks, tasks', t. rewrite loaded_set_clock in Hl.
    split_and!; [done|apply loaded_written|done].
Qed.

Lemma run_well_formed calls w0 tasks0 tasks :
  loaded w0 = Return tasks0 → Forall well_formed tasks0 →
  loaded (run calls w0) = Return tasks → Forall well_formed tasks.
Proof.
  revert w0 tasks0. induction calls as [|c calls IH]; intros w0 tasks0 H0 HF; simpl.
  - unfold run. simpl. rewrite H0. by intros [= <-].
  - change (run (c :: calls) w0) with (run calls (step w0 c)).
    destruct (step_loaded w0 c) as [Heq|(ts & ts' & t & Hl & Hl' & He)].
    + apply (IH _ tasks0); [by rewrite Heq|done].
    + apply (IH _ ts'); [done|].
      rewrite H0 in Hl. injection Hl as <-. by eapply effect_well_formed.
Qed.

(** * The claims *)

(** C1 (as amended).  [add_task] assigns 1 to the first task of an empty
    collection and otherwise one more than the largest id in the collection;
    the new id is therefore larger than every id present, so the id [x] of a
    deleted task is not assigned again while the collection still holds a
    task whose id is [x] or more. *)
Theorem add_task_assigns_next_id w tasks d :
  strip d ≠ "" → loaded w = Return tasks → writable w = true →
  ∃ t w', add_task d w = (Return t, w') ∧
    (tasks = [] → id t = 1) ∧
    (tasks ≠ [] →
       ∃ m, m ∈ ids tasks ∧ (∀ x, x ∈ ids tasks → x ≤ m) ∧ id t = m + 1) ∧
    (∀ x y, y ∈ ids tasks → x ≤ y → id t ≠ x).
Proof.
  intros Hd Hl Hw. rewrite (add_task_run d w tasks Hd Hl), Hw.
  eexists _, _. split; [done|]. simpl.
  destruct tasks as [|t0 ts]; simpl.
  - split_and!; [done..|]. intros x y Hy. by apply not_elem_of_nil in Hy.
  - split_and!; [done| |].
    + intros _. exists (py_max (id t0) (ids ts)). split_and!.
      * apply py_max_elem.
      * intros x. apply py_max_upper.
      * done.
    + intros x y Hy Hxy. pose proof (py_max_upper _ _ _ Hy). lia.
Qed.

(** C2 (as amended).  When the id is not in the collection, [delete_task],
    [mark_in_progress] and [mark_done], and [update_task] called with a
    description that is not blank, raise the not-found error and leave the
    world, hence the file, exactly as it was. *)
Theorem missing_id_raises_not_found w tasks i d :
  loaded w = Return tasks → i ∉ ids tasks → strip d ≠ "" →
  raises (update_task i d) w NotFoundError ∧
  raises (delete_task i) w NotFoundError ∧
  raises (mark_in_progress i) w NotFoundError ∧
  raises (mark_done i) w NotFoundError.
Proof.
  intros Hl Hi Hd. apply _find_task_None in Hi. unfold raises, mark_in_progress, mark_done.
  rewrite (update_task_run i d w tasks Hd Hl), (delete_task_run i w tasks Hl),
    !(_update_task_status_run i _ w tasks Hl), Hi.
  split_and!; by exists (TaskNotFound i).
Qed.

(** C3.  For a description that is not blank, on a readable and writable
    store whose ids are positive, [add_task] returns a task with status
    "todo", equal creation and update stamps, a positive id and the
    description exactly as given; the text written is the dump of the old
    collection followed by that task. *)
Theorem add_task_returns_todo w tasks d :
  strip d ≠ "" → loaded w = Return tasks → writable w = true →
  Forall (λ t, 0 < id t) tasks →
  ∃ t w', add_task d w = (Return t, w') ∧
    status t = "todo" ∧ createdAt t = updatedAt t ∧ 0 < id t ∧
    description t = d ∧
    file w' = Contents (json_dump (tasks ++ [t])).
Proof.
  intros Hd Hl Hw Hpos. rewrite (add_task_run d w tasks Hd Hl), Hw.
  eexists _, _. split; [done|]. simpl. split_and!; [done..| |done|done].
  destruct tasks as [|t0 ts]; simpl; [lia|].
  apply Forall_cons in Hpos as [H0 _].
  pose proof (py_max_ge_init (id t0) (ids ts)). lia.
Qed.

(** C4.  Without a filter [list_tasks] returns the collection as loaded; with
    one of the three status values it returns exactly the tasks of that
    status, in collection order.  In both cases the world is untouched. *)
Theorem list_tasks_filters w tasks :
  loaded w = Return tasks →
  list_tasks None w = (Return tasks, w) ∧
  ∀ s, enumerated s →
    list_tasks (Some s) w = (Return (filter (λ t, status t = s) tasks), w).
Proof.
  intros Hl. split; [by rewrite (list_tasks_run None w tasks Hl)|].
  intros s Hs%enumerated_valid.
  rewrite (list_tasks_run (Some s) w tasks Hl).
  by rewrite bool_decide_eq_true_2, with_status_filter.
Qed.

(** C5.  Loading after saving gives the saved collection back: when a
    mutating call returns, the file holds the dump of the collection the
    call built in memory, and a fresh load returns exactly that collection. *)
Theorem reload_after_mutation m w t w' :
  perform m w = (Return t, w') →
  ∃ tasks tasks',
    loaded w = Return tasks ∧ effect (clock w) m tasks tasks' t ∧
    _save_tasks tasks' w = (Return (), w') ∧
    _get_tasks w' = (Return tasks', w').
Proof.
  intros [(e & [=] & _)|(t' & tasks & tasks' & [= <-] & Hl & Hw & -> & He)]%perform_cases.
  exists tasks, tasks'. split_and!; [done..| |].
  - rewrite _save_tasks_run by (by eapply loaded_readable). by rewrite Hw.
  - by rewrite _get_tasks_run, loaded_written.
Qed.

(** C6.  A description that is empty or all whitespace makes both [add_task]
    and [update_task] raise a validation error, whatever the world; the
    world, hence the file, is left exactly as it was. *)
Theorem blank_description_raises_validation w i d :
  strip d = "" →
  raises (add_task d) w ValidationError ∧
  raises (update_task i d) w ValidationError.
Proof.
  intros Hd. split.
  - exists DescriptionEmpty. by rewrite add_task_blank.
  - exists UpdatedDescriptionEmpty. by rewrite update_task_blank.
Qed.

(** C7.  A successful update or status change of the task found under an id
    keeps its creation stamp (and its id) and sets its update stamp to the
    current time, in the task returned and in the collection saved. *)
Theorem in_place_mutation_stamps m w tasks i n t :
  in_place m i →
  loaded w = Return tasks → _find_task tasks i = Some (n, t) →
  writable w = true →
  ∃ t' w' tasks',
    perform m w = (Return t', w') ∧
    createdAt t' = createdAt t ∧ updatedAt t' = clock w ∧ id t' = id t ∧
    loaded w' = Return tasks' ∧ tasks' !! n = Some t'.
Proof.
  intros Hm Hl Hf Hw.
  assert (n < List.length tasks)%nat as Hn.
  { apply _find_task_Some in Hf as (Hn & _). by eapply lookup_lt_Some. }
  destruct Hm as [(d & -> & Hd)|[->| ->]]; simpl;
    unfold mark_in_progress, mark_done;
    rewrite ?(update_task_run i d w tasks Hd Hl),
      ?(_update_task_status_run i _ w tasks Hl), Hf; simpl; rewrite Hw;
    eexists _, _, _; (split; [done|]); simpl;
    (split_and!; [done..|apply loaded_written|by apply list_lookup_insert_eq]).
Qed.

(** C9.  For any id and any world, [update_task] with a blank description
    raises the empty-description error and leaves the world as it was.  The
    outcome does not depend on the file (which may be unreadable, or lack the
    id): the check comes before the load, so the error is the validation
    error and neither the not-found nor the read error. *)
Theorem update_task_checks_description_first w i d :
  strip d = "" →
  update_task i d w = (Raise UpdatedDescriptionEmpty, w) ∧
  kind UpdatedDescriptionEmpty = Some ValidationError ∧
  ¬ raises (update_task i d) w NotFoundError ∧
  ¬ raises (update_task i d) w StorageError.
Proof.
  intros Hd. unfold raises. rewrite (update_task_blank i d w Hd).
  split_and!; [done..| |]; intros (e & [= <-] & [=]).
Qed.

(** C8.  Starting from an empty store, after any sequence of add, update,
    delete and mark calls (whether they return or raise), every task of the
    persisted collection has one of the statuses "todo", "in-progress",
    "done". *)
Theorem persisted_status_enumerated calls w0 tasks :
  loaded w0 = Return [] →
  loaded (run calls w0) = Return tasks →
  Forall (λ t, status t = "todo" ∨ status t = "in-progress" ∨ status t = "done")
    tasks.
Proof.
  intros H0 Hl.
  eapply Forall_impl; [by eapply (run_well_formed calls w0 [])|].
  by intros t [Hs _].
Qed.

(** C10.  A successful call changes at most the task it addresses.  Add
    appends the returned task and keeps every earlier task; delete removes
    the first task carrying the id and keeps all others in order; update and
    the two status changes replace one position by the returned task, which
    carries the same id, and keep every other position and the length. *)
Theorem mutation_changes_one_task m w t w' tasks :
  loaded w = Return tasks → perform m w = (Return t, w') →
  ∃ tasks', loaded w' = Return tasks' ∧
    match m with
    | Add _ => tasks' = tasks ++ [t]
    | Delete i =>
        ∃ before after,
          tasks = before ++ t :: after ∧ tasks' = before ++ after ∧
          id t = i ∧ i ∉ ids before
    | Update i _ | MarkInProgress i | MarkDone i =>
        ∃ n t0,
          tasks !! n = Some t0 ∧ id t0 = i ∧
          tasks' !! n = Some t ∧ id t = i ∧
          List.length tasks' = List.length tasks ∧
          ∀ j, j ≠ n → tasks' !! j = tasks !! j
    end.
Proof.
  intros Hl [(e & [=] & _)|(t' & ts & tasks' & [= <-] & Hl' & _ & -> & He)]%perform_cases.
  rewrite Hl in Hl'. injection Hl' as <-.
  exists tasks'. split; [apply loaded_written|].
  assert (∀ i n t0 t1, _find_task tasks i = Some (n, t0) → id t1 = id t0 →
    ∃ n' t0', tasks !! n' = Some t0' ∧ id t0' = i ∧
      <[n := t1]> tasks !! n' = Some t1 ∧ id t1 = i ∧
      List.length (<[n := t1]> tasks) = List.length tasks ∧
      ∀ j, j ≠ n' → <[n := t1]> tasks !! j = tasks !! j) as Hin_place.
  { intros i n t0 t1 Hf Hid. apply found_lookup in Hf as [Hn Hi].
    exists n, t0. split_and!; [done|done| |congruence|apply length_insert|].
    - apply list_lookup_insert_eq. by eapply lookup_lt_Some.
    - intros j Hj. by apply list_lookup_insert_ne. }
  destruct He as [d tasks _|i d tasks n t _ Hf|i tasks n t Hf
    |i tasks n t Hf|i tasks n t Hf].
  - done.
  - by apply (Hin_place i n t).
  - apply _find_task_Some in Hf as (Hn & Hid & Hfirst).
    exists (take n tasks), (drop (S n) tasks). split_and!.
    + by rewrite take_drop_middle.
    + apply delete_take_drop.
    + done.
    + unfold ids. intros (t' & Ht' & (j & Hj)%list_elem_of_lookup_1)%list_elem_of_fmap_1.
      apply lookup_take_Some in Hj as [Hj Hlt]. by apply (Hfirst j t').
  - by apply (Hin_place i n t).
  - by apply (Hin_place i n t).
Qed.

(** * Further properties of the manager *)

(** ** Helpers *)

Lemma run_cons c calls w : run (c :: calls) w = run calls (step w c).
Proof. done. Qed.

(** A property of the collection kept by every successful call holds along
    every run. *)
Lemma run_invariant (P : list Task → Prop) calls w0 tasks0 tasks :
  (∀ now m ts ts' t, effect now m ts ts' t → P ts → P ts') →
  loaded w0 = Return tasks0 → P tasks0 →
  loaded (run calls w0) = Return tasks → P tasks.
Proof.
  intros Hstep. revert w0 tasks0.
  induction calls as [|c calls IH]; intros w0 tasks0 H0 HP.
  - unfold run. simpl. rewrite H0. by intros [= <-].
  - rewrite run_cons.
    destruct (step_loaded w0 c) as [Heq|(ts & ts' & t & Hl & Hl' & He)].
    + apply (IH _ tasks0); [by rewrite Heq|done].
    + apply (IH _ ts'); [done|].
      rewrite H0 in Hl. injection Hl as <-. by eapply Hstep.
Qed.

Lemma ids_insert_same tasks n t t' :
  tasks !! n = Some t → id t' = id t → ids (<[n := t']> tasks) = ids tasks.
Proof.
  intros Hn Hid. unfold ids. rewrite list_fmap_insert, Hid.
  apply list_insert_id. by rewrite list_lookup_fmap, Hn.
Qed.

Lemma _next_id_above tasks x : x ∈ ids tasks → x < _next_id tasks.
Proof.
  destruct tasks as [|t0 ts]; simpl.
  - by intros ?%not_elem_of_nil.
  - intros Hx. pose proof (py_max_upper _ _ _ Hx). lia.
Qed.

Lemma StronglySorted_delete (l : list Z) i :
  StronglySorted Z.lt l → StronglySorted Z.lt (delete i l).
Proof.
  intros Hl. rewrite delete_take_drop.
  rewrite <- (take_drop i l) in Hl. apply StronglySorted_app in Hl as (H12 & H1 & H2).
  apply StronglySorted_app. split_and!; [|done|].
  - intros x1 x2 Hx1 Hx2. apply H12; [done|].
    rewrite <- (take_drop 1 (drop i l)), drop_drop.
    apply elem_of_app. right. by rewrite Nat.add_1_r.
  - rewrite <- (take_drop 1 (drop i l)), drop_drop, Nat.add_1_r in H2.
    by apply StronglySorted_app in H2 as (_ & _ & ?).
Qed.

Lemma effect_ids_sorted now m tasks tasks' t :
  effect now m tasks tasks' t →
  StronglySorted Z.lt (ids tasks) → StronglySorted Z.lt (ids tasks').
Proof.
  intros He HS. destruct He as [d tasks _|i d tasks n t _ Hf|i tasks n t Hf
    |i tasks n t Hf|i tasks n t Hf];
    try (apply found_lookup in Hf as [Hn _]).
  - unfold ids. rewrite fmap_app. apply StronglySorted_app. split_and!; [|done|].
    + intros x1 x2 Hx1 Hx2. apply list_elem_of_singleton in Hx2 as ->.
      by apply _next_id_above.
    + simpl. repeat constructor.
  - by rewrite (ids_insert_same _ _ t).
  - unfold ids. rewrite list_fmap_delete. by apply StronglySorted_delete.
  - by rewrite (ids_insert_same _ _ t).
  - by rewrite (ids_insert_same _ _ t).
Qed.

Lemma StronglySorted_lt_NoDup (l : list Z) : StronglySorted Z.lt l → NoDup l.
Proof.
  induction 1 as [|x l _ IH Hx]; constructor; [|done].
  intros Hin. rewrite Forall_forall in Hx. specialize (Hx x Hin). lia.
Qed.

(** ** Identifiers *)

(** X1.  Starting from an empty store, after any sequence of calls the ids of
    the persisted collection are strictly increasing in file order, hence
    pairwise distinct. *)
Theorem persisted_ids_increasing calls w0 tasks :
  loaded w0 = Return [] →
  loaded (run calls w0) = Return tasks →
  StronglySorted Z.lt (ids tasks) ∧ NoDup (ids tasks).
Proof.
  intros H0 Hl.
  assert (StronglySorted Z.lt (ids tasks)) as HS.
  { apply (run_invariant (λ ts, StronglySorted Z.lt (ids ts)) calls w0 []);
      [|done| |done].
    - intros now m ts ts' t. apply effect_ids_sorted.
    - constructor. }
  split; [done|]. by apply StronglySorted_lt_NoDup.
Qed.

(** X2.  [_find_task] returns the first task carrying the id, with its
    position (so with duplicate ids the earliest one is addressed), and
    [None] exactly when no task carries the id. *)
Theorem find_task_first_match tasks i :
  match _find_task tasks i with
  | Some (n, t) =>
      tasks !! n = Some t ∧ id t = i ∧
      ∀ j t', (j < n)%nat → tasks !! j = Some t' → id t' ≠ i
  | None => i ∉ ids tasks
  end.
Proof.
  destruct (_find_task tasks i) as [[n t]|] eqn:E.
  - apply _find_task_Some in E as (Hn & Hi & Hfirst).
    split_and!; [done..|]. intros j t' Hlt Hj. by apply (Hfirst j).
  - by apply _find_task_None.
Qed.

(** ** The file as found *)

(** X3.  A file that is missing, or whose text is not valid JSON, counts as
    the empty collection: listing returns no task and raises nothing, and a
    first add returns id 1 and replaces whatever text the file held by a
    collection holding that task alone. *)
Theorem missing_or_malformed_file_is_empty w d :
  file w = Missing ∨ (∃ text, file w = Contents text ∧ json_load text = None) →
  strip d ≠ "" → writable w = true →
  list_tasks None w = (Return [], w) ∧
  ∃ t, add_task d w = (Return t, written [t] w) ∧
       id t = 1 ∧ description t = d ∧ createdAt t = clock w.
Proof.
  intros Hfile Hd Hw.
  assert (loaded w = Return []) as Hl.
  { unfold loaded, _get_tasks.
    destruct Hfile as [->|(text & -> & ->)]; done. }
  split; [by rewrite (list_tasks_run None w [] Hl)|].
  rewrite (add_task_run d w [] Hd Hl), Hw. by eexists.
Qed.

(** X4.  When the file cannot be opened for writing, no mutating call
    succeeds and the world is left as it was; a call whose arguments pass
    every check (one that would have saved) raises the save error. *)
Theorem unwritable_store_unchanged m w :
  writable w = false →
  ∃ e, perform m w = (Raise e, w) ∧
    (kind e = Some StorageError ∨ kind e = Some ValidationError ∨
     kind e = Some NotFoundError) ∧
    ∀ tasks tasks' t,
      loaded w = Return tasks → effect (clock w) m tasks tasks' t → e = SaveFailed.
Proof.
  intros Hw. destruct (loaded w) as [tasks|e0] eqn:Hl.
  2:{ pose proof (loaded_unreadable _ _ Hl) as ->.
      destruct m as [d|i d|i|i|i]; simpl;
        unfold add_task, update_task, delete_task, mark_in_progress, mark_done,
          _update_task_status;
        try destruct (_ || _); rewrite ?(bind_load_failed _ _ _ Hl);
        eexists; (split; [done|]); (split; [simpl; tauto|done]). }
  destruct m as [d|i d|i|i|i]; simpl.
  - destruct (decide (strip d = "")) as [Hd|Hd].
    + rewrite add_task_blank by done. eexists. split; [done|]. split; [simpl; tauto|].
      intros ts ts' t _ He. by inversion He.
    + rewrite (add_task_run d w tasks Hd Hl), Hw. eexists. split; [done|].
      split; [simpl; tauto|done].
  - destruct (decide (strip d = "")) as [Hd|Hd].
    + rewrite update_task_blank by done. eexists. split; [done|]. split; [simpl; tauto|].
      intros ts ts' t _ He. by inversion He.
    + rewrite (update_task_run i d w tasks Hd Hl).
      destruct (_find_task tasks i) as [[n t]|] eqn:Hf; simpl; rewrite ?Hw;
        eexists; (split; [done|]); (split; [simpl; tauto|]); [done|].
      intros ts ts' t [= <-] He. inversion He; congruence.
  - rewrite (delete_task_run i w tasks Hl).
    destruct (_find_task tasks i) as [[n t]|] eqn:Hf; simpl; rewrite ?Hw;
      eexists; (split; [done|]); (split; [simpl; tauto|]); [done|].
    intros ts ts' t [= <-] He. inversion He; congruence.
  - unfold mark_in_progress. rewrite (_update_task_status_run i _ w tasks Hl).
    destruct (_find_task tasks i) as [[n t]|] eqn:Hf; simpl; rewrite ?Hw;
      eexists; (split; [done|]); (split; [simpl; tauto|]); [done|].
    intros ts ts' t [= <-] He. inversion He; congruence.
  - unfold mark_done. rewrite (_update_task_status_run i _ w tasks Hl).
    destruct (_find_task tasks i) as [[n t]|] eqn:Hf; simpl; rewrite ?Hw;
      eexists; (split; [done|]); (split; [simpl; tauto|]); [done|].
    intros ts ts' t [= <-] He. inversion He; congruence.
Qed.

(** X5.  When the file exists but cannot be read, every call that reaches
    the load (all but an add or update with a blank description) raises the
    read error, a storage error, and leaves the world as it was; this
    includes listing, with or without a filter, valid or not. *)
Theorem unreadable_store_raises_read_error w i d s :
  file w = Unreadable → strip d ≠ "" →
  add_task d w = (Raise ReadFailed, w) ∧
  update_task i d w = (Raise ReadFailed, w) ∧
  delete_task i w = (Raise ReadFailed, w) ∧
  mark_in_progress i w = (Raise ReadFailed, w) ∧
  mark_done i w = (Raise ReadFailed, w) ∧
  list_tasks s w = (Raise ReadFailed, w) ∧
  kind ReadFailed = Some StorageError.
Proof.
  intros Hf Hd.
  assert (loaded w = Raise ReadFailed) as Hl.
  { unfold loaded, _get_tasks. by rewrite Hf. }
  unfold add_task, update_task, delete_task, mark_in_progress, mark_done,
    _update_task_status, list_tasks.
  rewrite !valid_description_guard by done.
  rewrite !(bind_load_failed _ _ _ Hl). done.
Qed.

(** ** How calls compose *)

Lemma find_appended tasks t :
  id t = _next_id tasks →
  _find_task (tasks ++ [t]) (id t) = Some (List.length tasks, t).
Proof.
  intros Hid. apply _find_task_Some. split_and!.
  - by rewrite lookup_app_r, Nat.sub_diag.
  - done.
  - intros j t' Hj Hlt. rewrite lookup_app_l in Hj by done.
    assert (id t' ∈ ids tasks) as Hin.
    { unfold ids. apply list_elem_of_fmap_2. by eapply list_elem_of_lookup_2. }
    apply _next_id_above in Hin. lia.
Qed.

(** X6.  A task that was just added can be addressed by the id returned:
    deleting that id right away returns the very task added and puts the
    persisted collection back to what it was before the add. *)
Theorem add_then_delete_restores w tasks d t w1 :
  loaded w = Return tasks →
  add_task d w = (Return t, w1) →
  ∃ w2, delete_task (id t) w1 = (Return t, w2) ∧ loaded w2 = Return tasks.
Proof.
  intros Hl Hadd.
  destruct (decide (strip d = "")) as [Hd|Hd].
  { by rewrite add_task_blank in Hadd. }
  rewrite (add_task_run d w tasks Hd Hl) in Hadd.
  destruct (writable w) eqn:Hw; [|done]. injection Hadd as <- <-.
  rewrite (delete_task_run _ _ (tasks ++ [new_task tasks d (clock w)]))
    by apply loaded_written.
  rewrite find_appended by done. simpl. rewrite Hw.
  eexists. split; [done|]. rewrite loaded_written. f_equal.
  by rewrite delete_middle, app_nil_r.
Qed.

Lemma absent_id_raises w tasks i d :
  loaded w = Return tasks → i ∉ ids tasks → strip d ≠ "" →
  raises (delete_task i) w NotFoundError ∧
  raises (update_task i d) w NotFoundError ∧
  raises (mark_in_progress i) w NotFoundError ∧
  raises (mark_done i) w NotFoundError.
Proof.
  intros Hl Hi Hd. apply _find_task_None in Hi.
  unfold raises, mark_in_progress, mark_done.
  rewrite (update_task_run i d w tasks Hd Hl), (delete_task_run i w tasks Hl),
    !(_update_task_status_run i _ w tasks Hl), Hi.
  split_and!; by exists (TaskNotFound i).
Qed.

(** X7.  After a successful delete on a collection whose ids are distinct,
    the id is gone: it is not in the persisted collection, and deleting,
    updating or marking it again raises the not-found error. *)
Theorem deleted_id_is_gone w tasks i t w' d :
  loaded w = Return tasks → NoDup (ids tasks) → strip d ≠ "" →
  delete_task i w = (Return t, w') →
  ∃ tasks', loaded w' = Return tasks' ∧ (i ∉ ids tasks') ∧
    raises (delete_task i) w' NotFoundError ∧
    raises (update_task i d) w' NotFoundError ∧
    raises (mark_in_progress i) w' NotFoundError ∧
    raises (mark_done i) w' NotFoundError.
Proof.
  intros Hl Hnd Hd Hdel. rewrite (delete_task_run i w tasks Hl) in Hdel.
  destruct (_find_task tasks i) as [[n t0]|] eqn:Hf; [|done].
  destruct (writable w); [|done]. injection Hdel as <- <-.
  apply _find_task_Some in Hf as (Hn & Hid & _).
  assert (i ∉ ids (delete n tasks)) as Hgone.
  { unfold ids in *. rewrite list_fmap_delete.
    intros (j & Hj)%list_elem_of_lookup_1.
    assert ((id <$> tasks) !! n = Some i) as Hni by (by rewrite list_lookup_fmap, Hn, <- Hid).
    destruct (decide (j < n)%nat) as [Hlt|Hge].
    - rewrite list_lookup_delete_lt in Hj by done.
      pose proof (NoDup_lookup _ _ _ _ Hnd Hj Hni). lia.
    - rewrite list_lookup_delete_ge in Hj by lia.
      pose proof (NoDup_lookup _ _ _ _ Hnd Hj Hni). lia. }
  exists (delete n tasks). split; [apply loaded_written|]. split; [done|].
  apply (absent_id_raises _ _ _ d (loaded_written _ _) Hgone Hd).
Qed.

(** X8.  Update and the marks touch only their own field: a successful
    update sets the description and keeps the status; a successful mark sets
    the requested status, whatever the status was, and keeps the
    description. *)
Theorem in_place_mutation_fields w tasks i n t d :
  loaded w = Return tasks → _find_task tasks i = Some (n, t) →
  writable w = true → strip d ≠ "" →
  (∃ u w', update_task i d w = (Return u, w') ∧
     description u = d ∧ status u = status t) ∧
  (∃ u w', mark_in_progress i w = (Return u, w') ∧
     status u = "in-progress" ∧ description u = description t) ∧
  (∃ u w', mark_done i w = (Return u, w') ∧
     status u = "done" ∧ description u = description t).
Proof.
  intros Hl Hf Hw Hd. unfold mark_in_progress, mark_done.
  rewrite (update_task_run i d w tasks Hd Hl),
    !(_update_task_status_run i _ w tasks Hl), Hf. simpl. rewrite Hw.
  split_and!; by eexists _, _.
Qed.

(** ** Listing *)

Lemma filter_by_status_partition tasks :
  Forall (λ t, enumerated (status t)) tasks →
  filter (λ t, status t = "todo") tasks ++
  filter (λ t, status t = "in-progress") tasks ++
  filter (λ t, status t = "done") tasks ≡ₚ tasks.
Proof.
  induction 1 as [|x tasks Hx _ IH]; [done|].
  rewrite !filter_cons.
  destruct Hx as [Hs|[Hs|Hs]]; rewrite Hs; simpl.
  - by rewrite IH.
  - rewrite <- Permutation_middle. by rewrite IH.
  - rewrite app_assoc, <- Permutation_middle, <- app_assoc. by rewrite IH.
Qed.

(** X9.  When every status in the collection is one of the three values, the
    three filtered listings split the collection: together they hold every
    task exactly once. *)
Theorem filtered_listings_partition w tasks :
  loaded w = Return tasks → Forall (λ t, enumerated (status t)) tasks →
  ∃ todo in_progress done,
    list_tasks (Some "todo") w = (Return todo, w) ∧
    list_tasks (Some "in-progress") w = (Return in_progress, w) ∧
    list_tasks (Some "done") w = (Return done, w) ∧
    todo ++ in_progress ++ done ≡ₚ tasks.
Proof.
  intros Hl HF. rewrite !(list_tasks_run _ w tasks Hl).
  rewrite !bool_decide_eq_true_2 by (apply enumerated_valid; unfold enumerated; tauto).
  eexists _, _, _. split_and!; [done..|].
  rewrite !with_status_filter. by apply filter_by_status_partition.
Qed.

(** ** Errors *)



Lemma all_space_lstrip s : all_space (lstrip s) = all_space s.
Proof.
  induction s as [|c s IH]; [done|]. simpl.
  destruct (isspace c) eqn:Hc; simpl; [done|by rewrite Hc].
Qed.

Lemma rstrip_blank s : rstrip s = "" ↔ all_space s = true.
Proof.
  induction s as [|c s IH]; [done|]. simpl.
  destruct (rstrip s) as [|c' r].
  - rewrite (proj1 IH eq_refl), andb_true_r. by destruct (isspace c).
  - split; [done|]. intros [_ Hs]%andb_prop. by apply IH in Hs.
Qed.

Lemma strip_blank d : strip d = "" ↔ all_space d = true.
Proof. unfold strip. by rewrite rstrip_blank, all_space_lstrip. Qed.

Lemma add_task_valid_errors d w e w' :
  strip d ≠ "" → add_task d w = (Raise e, w') → e = ReadFailed ∨ e = SaveFailed.
Proof.
  intros Hd. destruct (loaded w) as [tasks|e0] eqn:Hl.
  - rewrite (add_task_run d w tasks Hd Hl).
    destruct (writable w); intros [= <- <-]. tauto.
  - pose proof (loaded_unreadable _ _ Hl) as ->. unfold add_task.
    rewrite valid_description_guard, (bind_load_failed _ _ _ Hl) by done.
    intros [= <- <-]. tauto.
Qed.

Lemma update_task_valid_errors i d w e w' :
  strip d ≠ "" → update_task i d w = (Raise e, w') →
  e = TaskNotFound i ∨ e = ReadFailed ∨ e = SaveFailed.
Proof.
  intros Hd. destruct (loaded w) as [tasks|e0] eqn:Hl.
  - rewrite (update_task_run i d w tasks Hd Hl).
    destruct (_find_task tasks i) as [[n t]|]; simpl;
      [destruct (writable w)|]; intros [= <- <-]; tauto.
  - pose proof (loaded_unreadable _ _ Hl) as ->. unfold update_task.
    rewrite valid_description_guard, (bind_load_failed _ _ _ Hl) by done.
    intros [= <- <-]. tauto.
Qed.

(** X11.  The description check rejects exactly the blank descriptions: add
    (and likewise update, for any id) raises its empty-description error if
    and only if every character of the description is white space, the empty
    description included. *)
Theorem description_rejected_iff_blank d i w :
  ((∃ w', add_task d w = (Raise DescriptionEmpty, w')) ↔ all_space d = true) ∧
  ((∃ w', update_task i d w = (Raise UpdatedDescriptionEmpty, w'))
     ↔ all_space d = true).
Proof.
  rewrite <- strip_blank. split; split.
  - intros [w' Hadd]. destruct (decide (strip d = "")) as [|Hd]; [done|].
    by destruct (add_task_valid_errors _ _ _ _ Hd Hadd).
  - intros Hd. exists w. by apply add_task_blank.
  - intros [w' Hupd]. destruct (decide (strip d = "")) as [|Hd]; [done|].
    by destruct (update_task_valid_errors _ _ _ _ _ Hd Hupd) as [|[|]].
  - intros Hd. exists w. by apply update_task_blank.
Qed.

(** ** Records along a run *)

Lemma same_task_prefix_refl tasks : Forall2 same_task tasks tasks.
Proof. apply Forall_Forall2_diag, Forall_forall. by intros t _. Qed.

Lemma effect_keeps_tasks now m tasks tasks' t :
  not_delete m → effect now m tasks tasks' t →
  ∃ kept added, tasks' = kept ++ added ∧ Forall2 same_task tasks kept.
Proof.
  intros Hm He. destruct He as [d tasks _|i d tasks n t _ Hf|i tasks n t Hf
    |i tasks n t Hf|i tasks n t Hf];
    try (apply found_lookup in Hf as [Hn _]).
  - exists tasks, [new_task tasks d now]. split; [done|].
    apply same_task_prefix_refl.
  - eexists _, []. rewrite app_nil_r. split; [done|].
    rewrite <- (list_insert_id tasks n t Hn) at 1.
    apply Forall2_insert; [apply same_task_prefix_refl|done].
  - done.
  - eexists _, []. rewrite app_nil_r. split; [done|].
    rewrite <- (list_insert_id tasks n t Hn) at 1.
    apply Forall2_insert; [apply same_task_prefix_refl|done].
  - eexists _, []. rewrite app_nil_r. split; [done|].
    rewrite <- (list_insert_id tasks n t Hn) at 1.
    apply Forall2_insert; [apply same_task_prefix_refl|done].
Qed.

(** X12.  Along any sequence of add, update and mark calls (no delete), the
    collection only grows at its end: every task present at the start is
    still at its position at the end, with the same id and the same creation
    stamp. *)
Theorem run_without_delete_keeps_tasks calls w0 tasks0 tasks :
  Forall (λ c, not_delete c.2) calls →
  loaded w0 = Return tasks0 →
  loaded (run calls w0) = Return tasks →
  ∃ kept added, tasks = kept ++ added ∧ Forall2 same_task tasks0 kept.
Proof.
  intros Hcalls. revert w0 tasks0.
  induction Hcalls as [|c calls Hc _ IH]; intros w0 tasks0 H0.
  - unfold run. simpl. rewrite H0. intros [= <-].
    exists tasks0, []. rewrite app_nil_r. split; [done|].
    apply same_task_prefix_refl.
  - rewrite run_cons.
    destruct (step_loaded w0 c) as [Heq|(ts & ts' & t & Hl & Hl' & He)].
    + apply IH. by rewrite Heq.
    + rewrite H0 in Hl. injection Hl as <-. intros Hrun.
      destruct (effect_keeps_tasks _ _ _ _ _ Hc He) as (k1 & a1 & -> & Hk1).
      destruct (IH _ _ Hl' Hrun) as (k2 & a2 & -> & Hk2).
      apply Forall2_app_inv_l in Hk2 as (k2a & k2b & Hka & Hkb & ->).
      exists k2a, (k2b ++ a2). split; [by rewrite app_assoc|].
      eapply Forall2_trans; [|done..].
      intros a b c' [? ?] [? ?]. split; congruence.
Qed.

(** * Properties of the command handlers *)

Lemma attempt_bind {A B} (m : M A) (k : ValueError + A → M B) w :
  (attempt m ≫= k) w =
  match m w with
  | (Return a, w') => k (inr a) w'
  | (Raise e, w') => k (inl e) w'
  end.
Proof. unfold mbind, M_bind, attempt. by destruct (m w) as [[a|e] w']. Qed.

(** What the four id handlers have in common once the id has been read. *)
Lemma run_id_command_parsed py_int oserror c args_id task_id w :
  py_int args_id = Some task_id →
  ∃ confirmation : Task → string,
    (∀ t rest, confirmation t ≠ "Error: " +:+ rest) ∧
    run_id_command py_int oserror c args_id w =
      match perform (call_of c task_id) w with
      | (Return t, w') => (Return [confirmation t], w')
      | (Raise e, w') => (Return ["Error: " +:+ message oserror e], w')
      end.
Proof.
  intros Hint.
  assert (∀ a b : string, (∃ c s, a = String c s ∧ c ≠ "E"%char) →
            a ≠ "Error: " +:+ b) as Hne.
  { intros a b (c0 & s & -> & Hc) [= Hx _]. done. }
  destruct c as [d| | |]; simpl;
    unfold command_update, command_delete, command_mark_in_progress,
      command_mark_done; rewrite Hint, attempt_bind.
  - exists (λ t, "Task updated: " +:+ task_line t). split.
    + intros t rest. apply Hne. by eexists _, _.
    + by destruct (update_task _ _ _) as [[t|e] w'].
  - exists (λ _, "Task deleted: " +:+ str_int task_id). split.
    + intros t rest. apply Hne. by eexists _, _.
    + by destruct (delete_task _ _) as [[t|e] w'].
  - exists (λ _, "Task marked as in progress: " +:+ str_int task_id). split.
    + intros t rest. apply Hne. by eexists _, _.
    + by destruct (mark_in_progress _ _) as [[t|e] w'].
  - exists (λ _, "Task marked as done: " +:+ str_int task_id). split.
    + intros t rest. apply Hne. by eexists _, _.
    + by destruct (mark_done _ _) as [[t|e] w'].
Qed.


(** X14.  For an id that reads as an integer but is not in the collection,
    each id handler prints "Error: Task with id N not found.", N being the
    integer in decimal whatever the spelling of the argument, and leaves the
    world as it was (update: when its description is not blank). *)
Theorem id_command_missing_id py_int oserror c args_id task_id w tasks :
  py_int args_id = Some task_id →
  loaded w = Return tasks → task_id ∉ ids tasks → checked c →
  run_id_command py_int oserror c args_id w =
    (Return ["Error: Task with id " +:+ str_int task_id +:+ " not found."], w).
Proof.
  intros Hint Hl Hid Hc.
  destruct (run_id_command_parsed py_int oserror c args_id task_id w Hint)
    as (confirmation & _ & ->).
  apply _find_task_None in Hid.
  destruct c as [d| | |]; simpl in *; unfold mark_in_progress, mark_done;
    rewrite ?(update_task_run task_id d w tasks Hc Hl),
      ?(delete_task_run task_id w tasks Hl),
      ?(_update_task_status_run task_id _ w tasks Hl), Hid; done.
Qed.


Lemma command_list_run oserror args_status w :
  command_list oserror args_status w =
    match list_tasks args_status w with
    | (Raise e, w') => (Return ["Error: " +:+ message oserror e], w')
    | (Return tasks, w') =>
        (Return
           (if bool_decide (tasks = []) then
              match args_status with
              | Some s =>
                  if truthy s then ["No tasks found with status: " +:+ s +:+ "."]
                  else ["No tasks found."]
              | None => ["No tasks found."]
              end
            else
              [String newline
                 ("Listing " +:+ str_int (Z.of_nat (List.length tasks)) +:+ " tasks:");
               str_mul "-" 40]
              ++ (task_line <$> tasks) ++ [String newline EmptyString]), w')
    end.
Proof.
  unfold command_list. rewrite attempt_bind.
  destruct (list_tasks args_status w) as [[tasks|e] w']; [|done].
  destruct (bool_decide (tasks = [])); [|done].
  destruct args_status as [s|]; [|done]. by destruct (truthy s).
Qed.

(** X16.  With no filter or one of the three status values, the list handler
    changes nothing and prints, when some task matches, a header with the
    number of matching tasks, a rule of forty dashes, one line per matching
    task in collection order and a closing blank line; when none matches, a
    single line saying so (naming the status when one was given). *)
Theorem command_list_output oserror args_status w tasks :
  loaded w = Return tasks →
  args_status = None ∨ (∃ s, args_status = Some s ∧ enumerated s) →
  let shown :=
    match args_status with
    | None => tasks
    | Some s => filter (λ t, status t = s) tasks
    end in
  ∃ lines,
    command_list oserror args_status w = (Return lines, w) ∧
    (shown = [] →
       lines = [match args_status with
                | None => "No tasks found."
                | Some s => "No tasks found with status: " +:+ s +:+ "."
                end]) ∧
    (shown ≠ [] →
       lines =
         String newline
           ("Listing " +:+ str_int (Z.of_nat (List.length shown)) +:+ " tasks:")
         :: "----------------------------------------"
         :: (task_line <$> shown) ++ [String newline EmptyString]).
Proof.
  intros Hl Hvalid shown. rewrite command_list_run.
  assert (list_tasks args_status w = (Return shown, w)) as ->.
  { rewrite (list_tasks_run args_status w tasks Hl). subst shown.
    destruct Hvalid as [->|(s & -> & Hs)]; [done|].
    by rewrite bool_decide_eq_true_2, with_status_filter
      by by apply enumerated_valid. }
  eexists. split; [done|]. split.
  - intros ->. rewrite bool_decide_eq_true_2 by done.
    destruct Hvalid as [->|(s & -> & Hs)]; [done|].
    by destruct Hs as [->|[->| ->]].
  - intros Hne. by rewrite bool_decide_eq_false_2.
Qed.


End Manager.

(** * The codec loads what it dumped *)

Lemma parse_chars_escape c rest :
  parse_chars (escape_char c +:+ rest) =
  '(r, k) ← parse_chars rest; Some (String c r, k).
Proof.
  destruct c as [[] [] [] [] [] [] [] []]; reflexivity.
Qed.

Lemma parse_chars_put_escaped s k :
  parse_chars (put_escaped s (String dquote k)) = Some (s, k).
Proof.
  induction s as [|c s IH]; [done|].
  cbn [put_escaped]. by rewrite parse_chars_escape, IH.
Qed.

Lemma parse_string_put s k : parse_string (put_string s k) = Some (s, k).
Proof.
  unfold parse_string, put_string, expect. cbn -[parse_chars put_escaped].
  apply parse_chars_put_escaped.
Qed.

Lemma parse_string_ws c s : is_ws c = true → parse_string (String c s) = parse_string s.
Proof. intros H. unfold parse_string, expect. simpl. by rewrite H. Qed.

Lemma append_cons c s k : String c s +:+ k = String c (s +:+ k).
Proof. reflexivity. Qed.

Lemma append_nil k : "" +:+ k = k.
Proof. reflexivity. Qed.

Ltac literal := rewrite ?append_cons, ?append_nil.

Lemma parse_key_put key k :
  parse_key key (put_key "    " key k) = Some (String " " k).
Proof.
  unfold parse_key, put_key. literal.
  rewrite !parse_string_ws by done. rewrite parse_string_put. cbn.
  by rewrite bool_decide_eq_true_2.
Qed.

(** Numbers *)

Lemma all_number_chars_uint d :
  all_number_chars (NilEmpty.string_of_uint d) = true.
Proof. induction d; simpl; by rewrite ?IHd. Qed.

Lemma number_text z :
  ∃ c s, NilZero.string_of_int (Z.to_int z) = String c s ∧
    is_number_char c = true ∧ all_number_chars s = true.
Proof.
  assert (∀ d, ∃ c s, NilZero.string_of_uint d = String c s ∧
    is_number_char c = true ∧ all_number_chars s = true) as Hu.
  { intros d. pose proof (all_number_chars_uint d) as H.
    destruct d; simpl in *; eexists _, _; (split; [done|]);
      (split; [done|]); try done; by apply andb_prop in H as [_ ?]. }
  destruct (Z.to_int z) as [d|d]; simpl.
  - apply Hu.
  - destruct (Hu d) as (c & s & -> & Hc & Hs).
    eexists _, _. split; [done|]. split; [done|]. simpl. by rewrite Hc, Hs.
Qed.

Lemma span_number_text n k c :
  all_number_chars n = true → is_number_char c = false →
  span_number (n +:+ String c k) = (n, String c k).
Proof.
  intros Hn Hc. induction n as [|a n IH]; literal; simpl.
  - by rewrite Hc.
  - simpl in Hn. apply andb_prop in Hn as [-> Hn]. by rewrite IH.
Qed.

Lemma int_of_string_of_int z :
  Z.of_int <$> NilZero.int_of_string (NilZero.string_of_int (Z.to_int z)) = Some z.
Proof.
  rewrite NilZero.isi.
  - simpl. f_equal. apply DecimalZ.of_to.
  - destruct z; simpl; [done|..]; intros [= H];
      by apply DecimalPos.Unsigned.to_uint_nonnil in H.
  - destruct z; simpl; [done|..]; intros [= H];
      by apply DecimalPos.Unsigned.to_uint_nonnil in H.
Qed.

Lemma parse_int_put z c k :
  is_number_char c = false →
  parse_int (String " " (put_int z (String c k))) = Some (z, String c k).
Proof.
  intros Hc. unfold parse_int, put_int.
  destruct (number_text z) as (a & s & E & Ha & Hs).
  assert (skip_ws (String " " (NilZero.string_of_int (Z.to_int z) +:+ String c k))
          = NilZero.string_of_int (Z.to_int z) +:+ String c k) as ->.
  { rewrite E. literal. simpl.
    destruct a as [[] [] [] [] [] [] [] []]; done. }
  rewrite span_number_text; [|rewrite E; simpl; by rewrite Ha, Hs|done].
  pose proof (int_of_string_of_int z) as H.
  destruct (NilZero.int_of_string _) as [d|]; simpl in *; by simplify_eq.
Qed.

Lemma expect_here c k : is_ws c = false → expect c (String c k) = Some k.
Proof. intros H. unfold expect. simpl. by rewrite H, Ascii.eqb_refl. Qed.

Lemma expect_ws a c k : is_ws a = true → expect c (String a k) = expect c k.
Proof. intros H. unfold expect. simpl. by rewrite H. Qed.

Lemma parse_task_put t k : parse_task (put_task t k) = Some (t, k).
Proof.
  destruct t as [i d st c u]. unfold parse_task, put_task. cbn [id description status createdAt updatedAt].
  literal. rewrite expect_here by done. cbn [mbind option_bind].
  rewrite parse_key_put. cbn [mbind option_bind].
  rewrite parse_int_put by done. cbn [mbind option_bind].
  rewrite expect_here by done. cbn [mbind option_bind].
  repeat (rewrite parse_key_put; cbn [mbind option_bind];
          rewrite parse_string_ws by done; rewrite parse_string_put;
          cbn [mbind option_bind];
          try (rewrite expect_here by done; cbn [mbind option_bind])).
  rewrite !expect_ws by done. by rewrite expect_here.
Qed.

Lemma parse_task_ws a s : is_ws a = true → parse_task (String a s) = parse_task s.
Proof. intros H. unfold parse_task. by rewrite expect_ws. Qed.

Lemma parse_items_put fuel t ts :
  (List.length ts < fuel)%nat →
  parse_items fuel (put_items t ts "") = Some (t :: ts).
Proof.
  revert fuel t. induction ts as [|t' ts IH]; intros [|fuel] t Hlt;
    simpl in Hlt; try lia; cbn [parse_items put_items]; literal;
    rewrite !parse_task_ws by done; rewrite parse_task_put;
    cbn [mbind option_bind].
  - done.
  - simpl. rewrite IH by lia. done.
Qed.

Lemma length_append s k :
  String.length (s +:+ k) = (String.length s + String.length k)%nat.
Proof. induction s as [|c s IH]; literal; simpl; [done|by rewrite IH]. Qed.

Lemma length_put_escaped s k : (String.length k ≤ String.length (put_escaped s k))%nat.
Proof.
  induction s as [|c s IH]; simpl; [done|]. rewrite length_append. lia.
Qed.

Lemma length_put_string s k : (String.length k ≤ String.length (put_string s k))%nat.
Proof.
  unfold put_string. simpl.
  pose proof (length_put_escaped s (String dquote k)) as H. simpl in H. lia.
Qed.

Lemma length_put_key i key k : (String.length k ≤ String.length (put_key i key k))%nat.
Proof.
  unfold put_key. simpl. rewrite length_append.
  pose proof (length_put_string key (": " +:+ k)) as H.
  rewrite length_append in H. lia.
Qed.

Lemma length_put_int z k : (String.length k ≤ String.length (put_int z k))%nat.
Proof. unfold put_int. rewrite length_append. lia. Qed.

Lemma length_comma k : (String.length k ≤ String.length ("," +:+ k))%nat.
Proof. rewrite length_append. lia. Qed.

Lemma length_put_task t k : (String.length k < String.length (put_task t k))%nat.
Proof.
  unfold put_task. literal. cbn [String.length]. apply Nat.lt_succ_r.
  repeat (etrans;
    [|first [apply length_put_key | apply length_put_string
            |apply length_put_int | apply length_comma]]).
  literal. simpl. lia.
Qed.

Lemma length_put_items t ts k :
  (List.length ts < String.length (put_items t ts k))%nat.
Proof.
  revert t. induction ts as [|t' ts IH]; intros t; cbn [put_items]; literal;
    cbn [String.length List.length].
  - lia.
  - pose proof (length_put_task t ("," +:+ put_items t' ts k)).
    pose proof (length_comma (put_items t' ts k)). specialize (IH t').
    rewrite ?append_cons, ?append_nil in *. lia.
Qed.

Lemma json_loads_dumps tasks : json_loads (json_dumps tasks) = Some tasks.
Proof.
  destruct tasks as [|t ts]; [done|].
  unfold json_loads, json_dumps. literal.
  rewrite expect_here by done. cbn [mbind option_bind].
  pose proof (length_put_items t ts "") as Hlen.
  pose proof (parse_items_put (String.length (put_items t ts "")) t ts Hlen) as Hp.
  revert Hp. generalize (String.length (put_items t ts "")). intros fuel.
  destruct ts; cbn [put_items]; literal; cbn [skip_ws is_ws]; simpl;
    unfold put_task; literal; simpl; done.
Qed.

(** * The claims on concrete stores *)

Lemma loaded_two_tasks : loaded json_loads two_tasks = Return [milk; dog].
Proof. vm_compute. reflexivity. Qed.

Lemma strip_feed_cat : strip "Feed the cat" ≠ "".
Proof. vm_compute. discriminate. Qed.

(** The scenarios of the specification, run on the model. *)
Example strip_examples :
  strip "  x  " = "x" ∧ strip "   " = "" ∧ strip "a b" = "a b" ∧
  strip (String "009" (String "010" "Buy milk ")) = "Buy milk".
Proof. repeat split. Qed.

Example scenario_add_keeps_whitespace :
  (add_task json_dumps json_loads "  x  " fresh).1 =
  Return {| id := 1; description := "  x  "; status := "todo";
            createdAt := clock fresh; updatedAt := clock fresh |}.
Proof. vm_compute. reflexivity. Qed.

Example scenario_add_blank :
  (add_task json_dumps json_loads "   " fresh).1 = Raise DescriptionEmpty ∧
  (add_task json_dumps json_loads "" fresh).1 = Raise DescriptionEmpty.
Proof. split; vm_compute; reflexivity. Qed.

Example scenario_gap_not_backfilled :
  loaded json_loads
    (run json_dumps json_loads
       [("t1", Add "A"); ("t2", Add "B"); ("t3", Delete 1); ("t4", Add "C")]
       fresh)
  = Return [ {| id := 2; description := "B"; status := "todo";
                createdAt := "t2"; updatedAt := "t2" |};
             {| id := 3; description := "C"; status := "todo";
                createdAt := "t4"; updatedAt := "t4" |} ].
Proof. vm_compute. reflexivity. Qed.

Example scenario_bogus_filter :
  list_tasks json_loads (Some "bogus-status") two_tasks =
  (Raise (InvalidStatusFilter "bogus-status"), two_tasks).
Proof. vm_compute. reflexivity. Qed.

(** C1, counterexample to the claim as stated: after "A" and "B" are added
    to an empty store and task 2 is deleted, the next add returns id 2 again,
    the id of the deleted task. *)
Lemma deleted_id_is_assigned_again :
  let w := run json_dumps json_loads [("t1", Add "A"); ("t2", Add "B")] fresh in
  ∃ t_del w1 t_new w2,
    delete_task json_dumps json_loads 2 (set_clock "t3" w) = (Return t_del, w1) ∧
    add_task json_dumps json_loads "C" (set_clock "t4" w1) = (Return t_new, w2) ∧
    id t_del = 2 ∧ id t_new = id t_del.
Proof.
  eexists _, _, _, _. split_and!.
  - lazy. reflexivity.
  - lazy. reflexivity.
  - reflexivity.
  - reflexivity.
Qed.

(** C1, the amended claim at a store holding ids 1 and 2. *)
Lemma add_task_assigns_next_id_witness :
  ∃ t w', add_task json_dumps json_loads "Feed the cat" two_tasks = (Return t, w') ∧
    ([milk; dog] = [] → id t = 1) ∧
    ([milk; dog] ≠ [] →
       ∃ m, m ∈ ids [milk; dog] ∧ (∀ x, x ∈ ids [milk; dog] → x ≤ m) ∧
            id t = m + 1) ∧
    (∀ x y, y ∈ ids [milk; dog] → x ≤ y → id t ≠ x).
Proof.
  apply (add_task_assigns_next_id json_dumps json_loads two_tasks [milk; dog]
           "Feed the cat").
  - vm_compute. discriminate.
  - vm_compute. reflexivity.
  - reflexivity.
Defined.

(** C2, counterexample to the claim as stated: on an empty store, where id
    999 is not in the collection, update with an empty description raises
    the validation error, not the not-found error. *)
Lemma update_missing_id_blank_description :
  loaded json_loads fresh = Return [] ∧ (999 ∉ ids []) ∧
  update_task json_dumps json_loads 999 "" fresh =
    (Raise UpdatedDescriptionEmpty, fresh) ∧
  kind UpdatedDescriptionEmpty = Some ValidationError ∧
  kind UpdatedDescriptionEmpty ≠ Some NotFoundError.
Proof.
  split_and!; [reflexivity|apply not_elem_of_nil|reflexivity|reflexivity|discriminate].
Qed.

(** C2, the amended claim at id 7 on the two-task store. *)
Lemma missing_id_raises_not_found_witness :
  raises (update_task json_dumps json_loads 7 "Feed the cat") two_tasks NotFoundError ∧
  raises (delete_task json_dumps json_loads 7) two_tasks NotFoundError ∧
  raises (mark_in_progress json_dumps json_loads 7) two_tasks NotFoundError ∧
  raises (mark_done json_dumps json_loads 7) two_tasks NotFoundError.
Proof.
  apply (missing_id_raises_not_found json_dumps json_loads two_tasks [milk; dog]).
  - vm_compute. reflexivity.
  - apply (bool_decide_unpack (7 ∉ ids [milk; dog])). vm_compute. exact I.
  - vm_compute. discriminate.
Defined.

(** C3 at the two-task store. *)
Lemma add_task_returns_todo_witness :
  ∃ t w', add_task json_dumps json_loads "Feed the cat" two_tasks = (Return t, w') ∧
    status t = "todo" ∧ createdAt t = updatedAt t ∧ 0 < id t ∧
    description t = "Feed the cat" ∧
    file w' = Contents (json_dumps ([milk; dog] ++ [t])).
Proof.
  apply (add_task_returns_todo json_dumps json_loads two_tasks [milk; dog]).
  - vm_compute. discriminate.
  - vm_compute. reflexivity.
  - reflexivity.
  - repeat constructor.
Defined.

(** C4 at the two-task store. *)
Lemma list_tasks_filters_witness :
  list_tasks json_loads None two_tasks = (Return [milk; dog], two_tasks) ∧
  ∀ s, enumerated s →
    list_tasks json_loads (Some s) two_tasks =
      (Return (filter (λ t, status t = s) [milk; dog]), two_tasks).
Proof.
  apply (list_tasks_filters json_loads two_tasks [milk; dog]).
  vm_compute. reflexivity.
Defined.

(** C5 at the two-task store, for an add. *)
Lemma reload_after_mutation_witness :
  ∃ tasks tasks',
    loaded json_loads two_tasks = Return tasks ∧
    effect (clock two_tasks) (Add "Feed the cat") tasks tasks' cat ∧
    _save_tasks json_dumps tasks' two_tasks =
      (Return (), written json_dumps [milk; dog; cat] two_tasks) ∧
    _get_tasks json_loads (written json_dumps [milk; dog; cat] two_tasks) =
      (Return tasks', written json_dumps [milk; dog; cat] two_tasks).
Proof.
  apply (reload_after_mutation json_dumps json_loads json_loads_dumps).
  vm_compute. reflexivity.
Defined.

(** C6 on a store that can be neither read nor written. *)
Lemma blank_description_raises_validation_witness :
  raises (add_task json_dumps json_loads "   ")
    {| file := Unreadable; writable := false; clock := "t" |} ValidationError ∧
  raises (update_task json_dumps json_loads 1 "   ")
    {| file := Unreadable; writable := false; clock := "t" |} ValidationError.
Proof.
  apply (blank_description_raises_validation json_dumps json_loads).
  vm_compute. reflexivity.
Defined.

(** C7: marking task 2 of the two-task store as done. *)
Lemma in_place_mutation_stamps_witness :
  ∃ t' w' tasks',
    perform json_dumps json_loads (MarkDone 2) two_tasks = (Return t', w') ∧
    createdAt t' = createdAt dog ∧ updatedAt t' = clock two_tasks ∧
    id t' = id dog ∧
    loaded json_loads w' = Return tasks' ∧ tasks' !! 1%nat = Some t'.
Proof.
  apply (in_place_mutation_stamps json_dumps json_loads json_loads_dumps
           (MarkDone 2) two_tasks [milk; dog] 2 1%nat dog).
  - right. right. reflexivity.
  - vm_compute. reflexivity.
  - vm_compute. reflexivity.
  - reflexivity.
Defined.

(** C8: a run with every kind of call, some of them failing. *)
Lemma persisted_status_enumerated_witness :
  Forall (λ t, status t = "todo" ∨ status t = "in-progress" ∨ status t = "done")
    [ {| id := 1; description := "A2"; status := "done";
         createdAt := "t1"; updatedAt := "t4" |};
      {| id := 2; description := "C"; status := "in-progress";
         createdAt := "t7"; updatedAt := "t8" |} ].
Proof.
  apply (persisted_status_enumerated json_dumps json_loads json_loads_dumps
    [("t1", Add "A"); ("t2", Add "B"); ("t3", Update 1 "A2");
     ("t4", MarkDone 1); ("t5", Delete 2); ("t6", Delete 9);
     ("t7", Add "C"); ("t8", MarkInProgress 2); ("t9", Add " ")]
    fresh).
  - vm_compute. reflexivity.
  - vm_compute. reflexivity.
Defined.

(** C9: an id that is absent, on a file that cannot be read. *)
Lemma update_task_checks_description_first_witness :
  let w := {| file := Unreadable; writable := true; clock := "t" |} in
  update_task json_dumps json_loads 999 "" w = (Raise UpdatedDescriptionEmpty, w) ∧
  kind UpdatedDescriptionEmpty = Some ValidationError ∧
  ¬ raises (update_task json_dumps json_loads 999 "") w NotFoundError ∧
  ¬ raises (update_task json_dumps json_loads 999 "") w StorageError.
Proof.
  apply (update_task_checks_description_first json_dumps json_loads).
  vm_compute. reflexivity.
Defined.

(** C10: deleting task 1 of the two-task store. *)
Lemma mutation_changes_one_task_witness :
  ∃ tasks',
    loaded json_loads (written json_dumps [dog] two_tasks) = Return tasks' ∧
    ∃ before after,
      [milk; dog] = before ++ milk :: after ∧ tasks' = before ++ after ∧
      id milk = 1 ∧ 1 ∉ ids before.
Proof.
  apply (mutation_changes_one_task json_dumps json_loads json_loads_dumps
           (Delete 1) two_tasks milk).
  - vm_compute. reflexivity.
  - vm_compute. reflexivity.
Defined.

(** * Properties of the schema comparison *)

Lemma paths_differ (A B : gset string) : A ≠ B → A ∖ B ≠ ∅ ∨ B ∖ A ≠ ∅.
Proof.
  intros Hne. destruct (decide (A ∖ B = ∅)) as [HA|]; [|by left].
  destruct (decide (B ∖ A = ∅)) as [HB|]; [|by right].
  exfalso. apply Hne. apply set_eq. intros x. split; intros Hx.
  - destruct (decide (x ∈ B)) as [|Hn]; [done|].
    assert (x ∈ A ∖ B) as Hd by set_solver. rewrite HA in Hd. set_solver.
  - destruct (decide (x ∈ A)) as [|Hn]; [done|].
    assert (x ∈ B ∖ A) as Hd by set_solver. rewrite HB in Hd. set_solver.
Qed.

(** X18.  [compare_schemas] answers that the schemas match exactly when they
    have the same title (an absent "info" counting as an info without title)
    and the same set of path names (an absent "paths" counting as no path);
    it then reports no difference, and whenever it answers no it reports at
    least one.  Nothing else of the documents is compared. *)
Theorem compare_schemas_verdict {P} (a b : Schema P) :
  ((compare_schemas a b).1 = true ↔
     schema_title a = schema_title b ∧ schema_paths a = schema_paths b) ∧
  ((compare_schemas a b).1 = true ↔ (compare_schemas a b).2 = []).
Proof.
  unfold compare_schemas. cbv zeta.
  pose proof (paths_differ (schema_paths a) (schema_paths b)) as Hdiff.
  repeat case_bool_decide; simpl in *; naive_solver.
Qed.

(** X19.  The comparison is symmetric up to the direction of the path
    reports: exchanging the two schemas gives the same verdict, reports a
    title mismatch in the same cases, and turns each "missing in FastAPI"
    report into the "extra in FastAPI" report of the same path names and
    back. *)
Theorem compare_schemas_swap {P} (a b : Schema P) :
  (compare_schemas a b).1 = (compare_schemas b a).1 ∧
  (TitleMismatch ∈ (compare_schemas a b).2 ↔
   TitleMismatch ∈ (compare_schemas b a).2) ∧
  ∀ names,
    PathsMissingInFastapi names ∈ (compare_schemas a b).2 ↔
    PathsExtraInFastapi names ∈ (compare_schemas b a).2.
Proof.
  unfold compare_schemas. cbv zeta.
  pose proof (paths_differ (schema_paths a) (schema_paths b)) as Hdiff.
  repeat case_bool_decide; simpl in *;
    (split; [done || naive_solver|]);
    (split; [rewrite ?elem_of_cons, ?elem_of_nil; naive_solver|]);
    intros names; rewrite ?elem_of_cons, ?elem_of_nil; naive_solver.
Qed.

(** * The further properties on concrete stores *)

(** X1 on a run that deletes the largest id and adds again. *)
Lemma persisted_ids_increasing_witness :
  StronglySorted Z.lt
    (ids [ {| id := 1; description := "A2"; status := "done";
              createdAt := "t1"; updatedAt := "t4" |};
           {| id := 2; description := "C"; status := "todo";
              createdAt := "t7"; updatedAt := "t7" |} ]) ∧
  NoDup
    (ids [ {| id := 1; description := "A2"; status := "done";
              createdAt := "t1"; updatedAt := "t4" |};
           {| id := 2; description := "C"; status := "todo";
              createdAt := "t7"; updatedAt := "t7" |} ]).
Proof.
  apply (persisted_ids_increasing json_dumps json_loads json_loads_dumps
    [("t1", Add "A"); ("t2", Add "B"); ("t3", Update 1 "A2");
     ("t4", MarkDone 1); ("t5", Delete 2); ("t6", Delete 9); ("t7", Add "C")]
    fresh).
  - vm_compute. reflexivity.
  - vm_compute. reflexivity.
Defined.

(** X3 on a file that holds text which is not JSON. *)
Lemma missing_or_malformed_file_is_empty_witness :
  list_tasks json_loads None garbled = (Return [], garbled) ∧
  ∃ t, add_task json_dumps json_loads "Feed the cat" garbled =
         (Return t, written json_dumps [t] garbled) ∧
       id t = 1 ∧ description t = "Feed the cat" ∧ createdAt t = clock garbled.
Proof.
  apply (missing_or_malformed_file_is_empty json_dumps json_loads garbled).
  - right. eexists. split; [reflexivity|]. vm_compute. reflexivity.
  - vm_compute. discriminate.
  - reflexivity.
Defined.

(** X4: marking task 2 on a file that cannot be written. *)
Lemma unwritable_store_unchanged_witness :
  ∃ e, perform json_dumps json_loads (MarkDone 2) read_only = (Raise e, read_only) ∧
    (kind e = Some StorageError ∨ kind e = Some ValidationError ∨
     kind e = Some NotFoundError) ∧
    ∀ tasks tasks' t,
      loaded json_loads read_only = Return tasks →
      effect (clock read_only) (MarkDone 2) tasks tasks' t → e = SaveFailed.
Proof.
  apply (unwritable_store_unchanged json_dumps json_loads). reflexivity.
Defined.

(** X5 on a file that cannot be read. *)
Lemma unreadable_store_raises_read_error_witness :
  add_task json_dumps json_loads "Feed the cat" locked = (Raise ReadFailed, locked) ∧
  update_task json_dumps json_loads 1 "Feed the cat" locked = (Raise ReadFailed, locked) ∧
  delete_task json_dumps json_loads 1 locked = (Raise ReadFailed, locked) ∧
  mark_in_progress json_dumps json_loads 1 locked = (Raise ReadFailed, locked) ∧
  mark_done json_dumps json_loads 1 locked = (Raise ReadFailed, locked) ∧
  list_tasks json_loads (Some "bogus") locked = (Raise ReadFailed, locked) ∧
  kind ReadFailed = Some StorageError.
Proof.
  apply (unreadable_store_raises_read_error json_dumps json_loads locked).
  - reflexivity.
  - vm_compute. discriminate.
Defined.

(** X6: adding to the two-task store and deleting the new id. *)
Lemma add_then_delete_restores_witness :
  ∃ w2, delete_task json_dumps json_loads (id cat)
          (written json_dumps [milk; dog; cat] two_tasks) = (Return cat, w2) ∧
        loaded json_loads w2 = Return [milk; dog].
Proof.
  apply (add_then_delete_restores json_dumps json_loads json_loads_dumps
           two_tasks [milk; dog] "Feed the cat").
  - vm_compute. reflexivity.
  - vm_compute. reflexivity.
Defined.

(** X7: deleting task 1 of the two-task store. *)
Lemma deleted_id_is_gone_witness :
  ∃ tasks', loaded json_loads (written json_dumps [dog] two_tasks) = Return tasks' ∧
    (1 ∉ ids tasks') ∧
    raises (delete_task json_dumps json_loads 1)
      (written json_dumps [dog] two_tasks) NotFoundError ∧
    raises (update_task json_dumps json_loads 1 "Feed the cat")
      (written json_dumps [dog] two_tasks) NotFoundError ∧
    raises (mark_in_progress json_dumps json_loads 1)
      (written json_dumps [dog] two_tasks) NotFoundError ∧
    raises (mark_done json_dumps json_loads 1)
      (written json_dumps [dog] two_tasks) NotFoundError.
Proof.
  apply (deleted_id_is_gone json_dumps json_loads json_loads_dumps
           two_tasks [milk; dog] 1 milk).
  - vm_compute. reflexivity.
  - apply (bool_decide_unpack (NoDup (ids [milk; dog]))). vm_compute. exact I.
  - vm_compute. discriminate.
  - vm_compute. reflexivity.
Defined.

(** X8 on task 2 of the two-task store, which is in progress. *)
Lemma in_place_mutation_fields_witness :
  (∃ u w', update_task json_dumps json_loads 2 "Feed the cat" two_tasks = (Return u, w') ∧
     description u = "Feed the cat" ∧ status u = status dog) ∧
  (∃ u w', mark_in_progress json_dumps json_loads 2 two_tasks = (Return u, w') ∧
     status u = "in-progress" ∧ description u = description dog) ∧
  (∃ u w', mark_done json_dumps json_loads 2 two_tasks = (Return u, w') ∧
     status u = "done" ∧ description u = description dog).
Proof.
  apply (in_place_mutation_fields json_dumps json_loads two_tasks [milk; dog]
           2 1%nat dog).
  - vm_compute. reflexivity.
  - vm_compute. reflexivity.
  - reflexivity.
  - vm_compute. discriminate.
Defined.

(** X9 on the two-task store. *)
Lemma filtered_listings_partition_witness :
  ∃ todo in_progress done,
    list_tasks json_loads (Some "todo") two_tasks = (Return todo, two_tasks) ∧
    list_tasks json_loads (Some "in-progress") two_tasks = (Return in_progress, two_tasks) ∧
    list_tasks json_loads (Some "done") two_tasks = (Return done, two_tasks) ∧
    todo ++ in_progress ++ done ≡ₚ [milk; dog].
Proof.
  apply (filtered_listings_partition json_loads two_tasks [milk; dog]).
  - vm_compute. reflexivity.
  - repeat constructor; unfold enumerated; simpl; tauto.
Defined.


(** X12: an add, a mark and an update on the two-task store. *)
Lemma run_without_delete_keeps_tasks_witness :
  ∃ kept added,
    [ {| id := 1; description := "Buy milk"; status := "done";
         createdAt := "2024-05-01T09:00:00"; updatedAt := "t2" |};
      {| id := 2; description := "Walk"; status := "in-progress";
         createdAt := "2024-05-01T09:05:00"; updatedAt := "t3" |};
      {| id := 3; description := "C"; status := "todo";
         createdAt := "t1"; updatedAt := "t1" |} ] = kept ++ added ∧
    Forall2 same_task [milk; dog] kept.
Proof.
  apply (run_without_delete_keeps_tasks json_dumps json_loads json_loads_dumps
    [("t1", Add "C"); ("t2", MarkDone 1); ("t3", Update 2 "Walk")] two_tasks).
  - repeat constructor.
  - vm_compute. reflexivity.
  - vm_compute. reflexivity.
Defined.

(** X14: the delete handler given "007" on the two-task store. *)
Lemma id_command_missing_id_witness :
  run_id_command json_dumps json_loads read_decimal "Permission denied" CmdDelete
    "007" two_tasks =
  (Return ["Error: Task with id " +:+ str_int 7 +:+ " not found."], two_tasks).
Proof.
  apply (id_command_missing_id json_dumps json_loads read_decimal
           "Permission denied" CmdDelete "007" 7 two_tasks [milk; dog]).
  - vm_compute. reflexivity.
  - vm_compute. reflexivity.
  - apply (bool_decide_unpack (7 ∉ ids [milk; dog])). vm_compute. exact I.
  - exact I.
Defined.

(** X16: listing the tasks to do of the two-task store. *)
Lemma command_list_output_witness :
  let shown := filter (λ t, status t = "todo") [milk; dog] in
  ∃ lines,
    command_list json_loads "Permission denied" (Some "todo") two_tasks =
      (Return lines, two_tasks) ∧
    (shown = [] → lines = ["No tasks found with status: " +:+ "todo" +:+ "."]) ∧
    (shown ≠ [] →
       lines =
         String newline
           ("Listing " +:+ str_int (Z.of_nat (List.length shown)) +:+ " tasks:")
         :: "----------------------------------------"
         :: (task_line <$> shown) ++ [String newline EmptyString]).
Proof.
  apply (command_list_output json_loads "Permission denied" (Some "todo")
           two_tasks [milk; dog]).
  - vm_compute. reflexivity.
  - right. exists "todo". split; [reflexivity|]. left. reflexivity.
Defined.

(** The handlers on the two-task store, as a user sees them. *)
Example handlers_on_two_tasks :
  command_list json_loads "" None two_tasks =
    (Return [String newline "Listing 2 tasks:";
             "----------------------------------------";
             "1 - Buy milk - todo"; "2 - Walk the dog - in-progress";
             String newline EmptyString], two_tasks) ∧
  (command_delete json_dumps json_loads read_decimal "" "x1" two_tasks).1 =
    Return ["Error: Invalid task ID: x1"] ∧
  (command_mark_done json_dumps json_loads read_decimal "" "2" two_tasks).1 =
    Return ["Task marked as done: 2"] ∧
  (command_add json_dumps json_loads "Feed the cat" two_tasks).1 =
    Return ["Task added: 3 - Feed the cat - todo"].
Proof. repeat split; vm_compute; reflexivity. Qed.
